(** * A shallow embedding of the CHIP-8 interpreter of [chip8.py]

    The interpreter is one Python class, [Chip8], whose fields are numpy
    arrays and Python integers.  The embedding keeps the fields as they are
    (a record of lists and integers), threads the object through a small
    state-and-exception monad, and writes every method in the order of its
    statements.

    numpy conventions.  The program stores out-of-range Python integers into
    [uint8] arrays ([self.V[x] = res]) and adds a [uint8] scalar to a Python
    integer larger than 255 ([self.I += self.V[x]]); both are the value-based
    casting of numpy 1.x, which is therefore the semantics modelled here:
      - a store into a [uint8] (resp. [uint16]) array wraps modulo 2^8
        (resp. 2^16);
      - arithmetic between a numpy scalar and a Python integer is exact;
      - indexing follows Python (negative indices count from the end, others
        out of range raise [IndexError]); slicing clamps its bounds;
      - assigning to a slice, and in-place operators, broadcast the right
        operand to the shape of the left and raise [ValueError] when that is
        impossible.

    Left out: [print], [draw] (the pygame surface) and the busy-wait
    throttle, none of which touches the machine state.  The outside world
    (pygame's event queue, [random.randint], the wall clock) is an explicit
    input of each loop iteration. *)

From stdpp Require Import base list strings.
From Stdlib Require Import ZArith Lia Ascii.

#[local] Open Scope Z_scope.

(** ** Python and numpy primitives *)

Module Py.

(** [a[i]] for a sequence of length [len]: the position read, if any. *)
Definition index (len : nat) (i : Z) : option nat :=
  if (0 <=? i) && (i <? Z.of_nat len) then Some (Z.to_nat i)
  else if (- Z.of_nat len <=? i) && (i <? 0) then Some (Z.to_nat (Z.of_nat len + i))
  else None.

(** One bound of [a[start:stop]], as [slice.indices] computes it. *)
Definition clamp (len : nat) (i : Z) : nat :=
  Z.to_nat (if i <? 0 then Z.max 0 (i + Z.of_nat len) else Z.min i (Z.of_nat len)).

(** Number of positions selected by [a[start:stop]]. *)
Definition slice_len (len : nat) (start stop : Z) : nat :=
  (clamp len stop - clamp len start)%nat.

Definition slice {A} (l : list A) (start stop : Z) : list A :=
  take (slice_len (length l) start stop) (drop (clamp (length l) start) l).

Definition get {A} (l : list A) (i : Z) : option A :=
  n ← index (length l) i; l !! n.

Definition set {A} (l : list A) (i : Z) (v : A) : option (list A) :=
  n ← index (length l) i; Some (<[n := v]> l).

(** [a[start:stop] = vals] on a one-dimensional numpy array: [vals] must have
    the shape of the slice, or a single element that is repeated. *)
Definition set_slice {A} (l : list A) (start stop : Z) (vals : list A) : option (list A) :=
  let lo := clamp (length l) start in
  let k := slice_len (length l) start stop in
  if (length vals =? k)%nat then Some (take lo l ++ vals ++ drop (lo + k) l)
  else match vals with
       | [v] => Some (take lo l ++ replicate k v ++ drop (lo + k) l)
       | _ => None
       end.

(** Truth value of an integer, and of [None]. *)
Definition truthy (v : Z) : bool := negb (v =? 0).
Definition truthy_opt (v : option Z) : bool :=
  match v with Some k => truthy k | None => false end.

End Py.

(** Casts performed by a store into a numpy array of the given dtype. *)
Definition uint8 (v : Z) : Z := v mod 256.
Definition uint16 (v : Z) : Z := v mod 65536.

(** [np.unpackbits] of one byte: its eight bits, most significant first. *)
Definition unpackbits (b : Z) : list Z :=
  (λ k : nat, Z.b2z (Z.testbit b (7 - Z.of_nat k))) <$> seq 0 8.

(** ** The machine: the fields of a [Chip8] object *)

Record machine := Machine {
  RAM : list Z;            (* np.zeros(0x1000, dtype=np.uint8) *)
  V : list Z;              (* np.zeros(0x10, dtype=np.uint8) *)
  stack : list Z;          (* np.zeros(0x10, dtype=np.uint16) *)
  I : Z;
  PC : Z;
  SP : Z;
  DT : Z;
  ST : Z;
  keyboard : list Z;       (* np.zeros(0x10, dtype=np.uint8) *)
  screen : list (list Z)   (* np.zeros([64, 32], dtype=np.uint8): screen[x][y] *)
}.

Definition with_RAM (r : list Z) (m : machine) : machine :=
  Machine r (V m) (stack m) (I m) (PC m) (SP m) (DT m) (ST m) (keyboard m) (screen m).
Definition with_V (v : list Z) (m : machine) : machine :=
  Machine (RAM m) v (stack m) (I m) (PC m) (SP m) (DT m) (ST m) (keyboard m) (screen m).
Definition with_stack (s : list Z) (m : machine) : machine :=
  Machine (RAM m) (V m) s (I m) (PC m) (SP m) (DT m) (ST m) (keyboard m) (screen m).
Definition with_I (i : Z) (m : machine) : machine :=
  Machine (RAM m) (V m) (stack m) i (PC m) (SP m) (DT m) (ST m) (keyboard m) (screen m).
Definition with_PC (p : Z) (m : machine) : machine :=
  Machine (RAM m) (V m) (stack m) (I m) p (SP m) (DT m) (ST m) (keyboard m) (screen m).
Definition with_SP (s : Z) (m : machine) : machine :=
  Machine (RAM m) (V m) (stack m) (I m) (PC m) s (DT m) (ST m) (keyboard m) (screen m).
Definition with_DT (d : Z) (m : machine) : machine :=
  Machine (RAM m) (V m) (stack m) (I m) (PC m) (SP m) d (ST m) (keyboard m) (screen m).
Definition with_ST (s : Z) (m : machine) : machine :=
  Machine (RAM m) (V m) (stack m) (I m) (PC m) (SP m) (DT m) s (keyboard m) (screen m).
Definition with_keyboard (k : list Z) (m : machine) : machine :=
  Machine (RAM m) (V m) (stack m) (I m) (PC m) (SP m) (DT m) (ST m) k (screen m).
Definition with_screen (s : list (list Z)) (m : machine) : machine :=
  Machine (RAM m) (V m) (stack m) (I m) (PC m) (SP m) (DT m) (ST m) (keyboard m) s.

(** Class constants. *)
Definition pc_modifying : list string := ["JP nnn"; "CALL nnn"; "RET"]%string.
Definition digits : list Z :=
  [0xF0; 0x90; 0x90; 0x90; 0xF0;
   0x20; 0x60; 0x20; 0x20; 0x70;
   0xF0; 0x10; 0xF0; 0x80; 0xF0;
   0xF0; 0x10; 0xF0; 0x10; 0xF0;
   0x90; 0x90; 0xF0; 0x10; 0x10;
   0xF0; 0x80; 0xF0; 0x10; 0xF0;
   0xF0; 0x80; 0xF0; 0x90; 0xF0;
   0xF0; 0x10; 0x20; 0x40; 0x40;
   0xF0; 0x90; 0xF0; 0x90; 0xF0;
   0xF0; 0x90; 0xF0; 0x10; 0xF0;
   0xF0; 0x90; 0xF0; 0x90; 0x90;
   0xE0; 0x90; 0xE0; 0x90; 0xE0;
   0xF0; 0x80; 0x80; 0x80; 0xF0;
   0xE0; 0x90; 0x90; 0x90; 0xE0;
   0xF0; 0x80; 0xF0; 0x80; 0xF0;
   0xF0; 0x80; 0xF0; 0x80; 0x80].
Definition keys : list ascii :=
  ["1"; "2"; "3"; "4";
   "q"; "w"; "e"; "r";
   "a"; "s"; "d"; "f";
   "z"; "x"; "c"; "v"]%char.
Definition key_values : list Z :=
  [ 1; 2;  3; 12;
    4; 5;  6; 13;
    7; 8;  9; 14;
   10; 0; 11; 15].
Definition digit_loc : Z := 0x0.
Definition start : Z := 0x200.
Definition screen_size : nat * nat := (64%nat, 32%nat).

(** ** Control: exceptions, process exit, and the state monad *)

Inductive exn :=
  | IndexError                (* index out of range *)
  | ValueError                (* shapes that cannot be broadcast; bad unpacking *)
  | InvalidMode (op : string) (* Exception('Invalid <op> operation mode:', mode) *).

Inductive result (A : Type) :=
  | Ok (a : A)
  | Raise (e : exn)           (* uncaught exception: the process dies *)
  | SysExit                   (* exit() *)
  | Hang.                     (* a loop that never ends on the given input *)
Arguments Ok {A} a.
Arguments Raise {A} e.
Arguments SysExit {A}.
Arguments Hang {A}.

Definition M (A : Type) : Type := machine → result (A * machine).

#[export] Instance M_ret : MRet M := λ A a m, Ok (a, m).
#[export] Instance M_bind : MBind M := λ A B f c m,
  match c m with
  | Ok (a, m') => f a m'
  | Raise e => Raise e
  | SysExit => SysExit
  | Hang => Hang
  end.

Definition raise {A} (e : exn) : M A := λ _, Raise e.
Definition sys_exit {A} : M A := λ _, SysExit.
Definition hang {A} : M A := λ _, Hang.
Definition gets {A} (f : machine → A) : M A := λ m, Ok (f m, m).
Definition modify (f : machine → machine) : M unit := λ m, Ok (tt, f m).
Definition pass : M unit := mret tt.
Definition when (b : bool) (c : M unit) : M unit := if b then c else pass.

(** An [option] computed by an indexing primitive, [None] being the given
    exception. *)
Definition or_raise {A} (e : exn) (o : option A) : M A :=
  match o with Some a => mret a | None => raise e end.

(** The outcome of a call that does not touch the object. *)
Definition lift {A} (r : result A) : M A := λ m,
  match r with
  | Ok a => Ok (a, m)
  | Raise e => Raise e
  | SysExit => SysExit
  | Hang => Hang
  end.

(** ** The outside world *)

(** A pygame event, as far as [poll_keypress] looks at it; key codes are
    pygame's non-negative constants. *)
Inductive event :=
  | KEYDOWN (key : N)
  | KEYUP (key : N)
  | QUIT
  | OtherEvent.

Definition K_ESCAPE : N := 27%N.

(** What one iteration of the run loop gets from outside: the value of
    [random.randint(0, 255)] should the instruction draw one, the batches of
    events that successive polls inside [LD Vx, K] return, the batch of the
    loop's own poll, and whether 1/60 s has elapsed since the last tick. *)
Record world := World {
  randint : Z;
  wait_events : list (list event);
  loop_events : list event;
  timer_due : bool
}.

(** ** Methods of [Chip8] *)

(** [l.index(k)], if [k in l]. *)
Fixpoint list_index (k : ascii) (l : list ascii) : option nat :=
  match l with
  | [] => None
  | c :: l' => if Ascii.eqb c k then Some 0%nat else S <$> list_index k l'
  end.

Definition get_key (n : N) : option Z :=
  if (n <? 0x80)%N then
    let k := ascii_of_N n in
    i ← list_index k keys; key_values !! i
  else None.

(** [poll_keypress] reads class constants only: it is a function of the
    batch returned by [pygame.event.get()]. *)
Fixpoint poll_keypress (events : list event) : result (option Z * Z) :=
  match events with
  | [] => Ok (None, 0)
  | ev :: events' =>
    match ev with
    | KEYDOWN key =>
        if (key =? K_ESCAPE)%N then SysExit
        else match get_key key with
             | Some k => Ok (Some k, 1)
             | None => poll_keypress events'
             end
    | KEYUP key =>
        match get_key key with
        | Some k => Ok (Some k, 0)
        | None => poll_keypress events'
        end
    | QUIT => SysExit
    | OtherEvent => poll_keypress events'
    end
  end.

(** Reads and writes of the arrays. *)
Definition getV (x : Z) : M Z := v ← gets V; or_raise IndexError (Py.get v x).
Definition setV (x : Z) (val : Z) : M unit :=
  v ← gets V; v' ← or_raise IndexError (Py.set v x (uint8 val)); modify (with_V v').
Definition getRAM (addr : Z) : M Z := r ← gets RAM; or_raise IndexError (Py.get r addr).
Definition pc_add2 : M unit := pc ← gets PC; modify (with_PC (pc + 2)).

Definition push (v : Z) : M unit :=
  sp ← gets SP; modify (with_SP (sp + 1));;
  sp ← gets SP; s ← gets stack;
  s' ← or_raise IndexError (Py.set s sp (uint16 v)); modify (with_stack s').

Definition pop : M Z :=
  sp ← gets SP; s ← gets stack;
  res ← or_raise IndexError (Py.get s sp);
  modify (with_SP (sp - 1));;
  mret res.

Definition fetch_instr (addr : Z) : M Z :=
  hi ← getRAM addr; lo ← getRAM (addr + 1); mret (Z.shiftl hi 8 + lo).

(** The loop of [LD Vx, K]: poll until a key-down of a key whose value is
    truthy ([if key and val]). *)
Fixpoint wait_key (polls : list (list event)) (x : Z) : M unit :=
  match polls with
  | [] => hang
  | events :: polls' =>
      '(key, val) ← lift (poll_keypress events);
      match key with
      | Some k => if Py.truthy k && Py.truthy val then setV x k else wait_key polls' x
      | None => wait_key polls' x
      end
  end.

Definition LD (w : world) (args : list Z) (mode : Z) : M unit :=
  if mode =? 0 then
    match args with [x; kk] => setV x kk | _ => raise ValueError end
  else if mode =? 1 then
    match args with [x; y] => vy ← getV y; setV x vy | _ => raise ValueError end
  else if mode =? 2 then
    match args with [nnn] => modify (with_I nnn) | _ => raise ValueError end
  else
    match args with
    | [x] =>
      if mode =? 3 then dt ← gets DT; setV x dt
      else if mode =? 4 then wait_key (wait_events w) x
      else if mode =? 5 then vx ← getV x; modify (with_DT vx)
      else if mode =? 6 then vx ← getV x; modify (with_ST vx)
      else if mode =? 7 then vx ← getV x; modify (with_I (digit_loc + 5 * vx))
      else if mode =? 8 then
        a ← getV x; b ← getV x; c ← getV x;
        let BCD := [a / 100; (b mod 100) / 10; c mod 10] in
        i ← gets I; r ← gets RAM;
        r' ← or_raise ValueError (Py.set_slice r i (i + 3) (uint8 <$> BCD));
        modify (with_RAM r')
      else if mode =? 9 then
        v ← gets V; i ← gets I; r ← gets RAM;
        r' ← or_raise ValueError
               (Py.set_slice r i (i + x + 1) (uint8 <$> Py.slice v 0 (x + 1)));
        modify (with_RAM r')
      else if mode =? 10 then
        r ← gets RAM; i ← gets I; v ← gets V;
        v' ← or_raise ValueError
               (Py.set_slice v 0 (x + 1) (uint8 <$> Py.slice r i (i + x + 1)));
        modify (with_V v')
      else raise (InvalidMode "LD")
    | _ => raise ValueError
    end.

Definition ADD (args : list Z) (mode : Z) : M unit :=
  if mode =? 0 then
    match args with
    | [x; kk] => vx ← getV x; setV x (vx + kk)
    | _ => raise ValueError
    end
  else if mode =? 1 then
    match args with
    | [x; y] =>
        vx ← getV x; vy ← getV y;
        let res := vx + vy in
        setV 0xF (Z.b2z (0xff <? res));;
        setV x res
    | _ => raise ValueError
    end
  else if mode =? 2 then
    match args with
    | [x] =>
        i ← gets I; vx ← getV x; modify (with_I (i + vx));;
        i ← gets I; modify (with_I (Z.land i 0xfff))
    | _ => raise ValueError
    end
  else raise (InvalidMode "ADD").

Definition SUB (x y : Z) : M unit :=
  vx ← getV x; vy ← getV y;
  let res := vx - vy in
  setV 0xF (Z.b2z (0 <? res));;
  setV x res.

Definition OR (x y : Z) : M unit := vx ← getV x; vy ← getV y; setV x (Z.lor vx vy).
Definition AND (x y : Z) : M unit := vx ← getV x; vy ← getV y; setV x (Z.land vx vy).
Definition XOR (x y : Z) : M unit := vx ← getV x; vy ← getV y; setV x (Z.lxor vx vy).

Definition SHR (x : Z) : M unit :=
  vx ← getV x; setV 0xF (Z.land vx 0x1);;
  vx ← getV x; setV x (Z.shiftr vx 1).

Definition SHL (x : Z) : M unit :=
  vx ← getV x; setV 0xF (Z.b2z (negb (Z.land vx 0x80 =? 0)));;
  vx ← getV x; setV x (Z.shiftl vx 1).

Definition RND (w : world) (x kk : Z) : M unit := setV x (Z.land (randint w) kk).

Definition SE (args : list Z) (mode : Z) : M unit :=
  if mode =? 0 then
    match args with
    | [x; kk] => vx ← getV x; when (vx =? kk) pc_add2
    | _ => raise ValueError
    end
  else if mode =? 1 then
    match args with
    | [x; y] => vx ← getV x; vy ← getV y; when (vx =? vy) pc_add2
    | _ => raise ValueError
    end
  else raise (InvalidMode "SE").

Definition SNE (args : list Z) (mode : Z) : M unit :=
  if mode =? 0 then
    match args with
    | [x; kk] => vx ← getV x; when (negb (vx =? kk)) pc_add2
    | _ => raise ValueError
    end
  else if mode =? 1 then
    match args with
    | [x; y] => vx ← getV x; vy ← getV y; when (negb (vx =? vy)) pc_add2
    | _ => raise ValueError
    end
  else raise (InvalidMode "SNE").

Definition SKP (x : Z) : M unit :=
  vx ← getV x; kb ← gets keyboard;
  k ← or_raise IndexError (Py.get kb vx);
  when (Py.truthy k) pc_add2.

Definition SKNP (x : Z) : M unit :=
  vx ← getV x; kb ← gets keyboard;
  k ← or_raise IndexError (Py.get kb vx);
  when (negb (Py.truthy k)) pc_add2.

(** In mode 1 the statement is the comparison [self.PC == nnn + self.V[0]]:
    it is evaluated and its value dropped. *)
Definition JP (nnn : Z) (mode : Z) : M unit :=
  if mode =? 0 then modify (with_PC nnn)
  else if mode =? 1 then
    pc ← gets PC; v0 ← getV 0;
    let _ := pc =? nnn + v0 in pass
  else raise (InvalidMode "JP").

Definition CALL (nnn : Z) : M unit :=
  pc ← gets PC; push (pc + 2);;
  modify (with_PC nnn).

Definition RET : M unit := res ← pop; modify (with_PC res).

Definition CLS : M unit :=
  scr ← gets screen;
  modify (with_screen ((λ col : list Z, (λ _ : Z, 0) <$> col) <$> scr)).

(** *** [DRW]

    [block] is a view of [self.screen]: the in-place [block ^= bitarray]
    writes through to the screen, and the comparison that follows reads the
    updated pixels.  [block] has shape [(h, w)], the clamped extents of the
    slice [screen[Vx:Vx+8, Vy:Vy+n]] transposed; [w] is at most 8, so the
    cropped [bitarray] has [w] columns too and broadcasting is decided by the
    number of rows alone. *)

(** The right operand broadcast to [h] rows, if numpy can. *)
Definition broadcast_rows {A} (h : nat) (rows : list A) : option (list A) :=
  if (length rows =? h)%nat then Some rows
  else match rows with
       | [r] => Some (replicate h r)
       | _ => None
       end.

(** [block ^= bits] for the view whose first cell is [screen[x0][y0]]. *)
Definition xor_view (scr : list (list Z)) (x0 y0 : nat) (bits : list (list Z))
  : list (list Z) :=
  imap (λ cx (col : list Z),
    imap (λ cy (p : Z),
      if (x0 <=? cx)%nat && (y0 <=? cy)%nat then
        match bits !! (cy - y0)%nat ≫= (.!! (cx - x0)%nat) with
        | Some b => Z.lxor p b
        | None => p
        end
      else p) col) scr.

(** The [h] rows of [w] pixels seen through the view. *)
Definition view (scr : list (list Z)) (x0 y0 h w : nat) : list (list Z) :=
  (λ r : nat,
     (λ c : nat, default 0 (scr !! (x0 + c)%nat ≫= (.!! (y0 + r)%nat))) <$> seq 0 w)
  <$> seq 0 h.

(** [np.any(a != b)] for two arrays of one shape. *)
Definition any_ne (a b : list (list Z)) : bool :=
  existsb (λ rows : list Z * list Z,
             existsb (λ px : Z * Z, negb (px.1 =? px.2)) (zip rows.1 rows.2))
          (zip a b).

Definition DRW (x y n : Z) : M unit :=
  r ← gets RAM; i ← gets I;
  let sprite := Py.slice r i (i + n) in
  let bitarray := unpackbits <$> sprite in
  Vx ← getV x; Vy ← getV y;
  let x0 := Py.clamp screen_size.1 Vx in
  let w := Py.slice_len screen_size.1 Vx (Vx + 8) in
  let y0 := Py.clamp screen_size.2 Vy in
  let h := Py.slice_len screen_size.2 Vy (Vy + n) in
  let bitarray := take w <$> take h bitarray in
  bits ← or_raise ValueError (broadcast_rows h bitarray);
  scr ← gets screen;
  modify (with_screen (xor_view scr x0 y0 bits));;
  scr ← gets screen;
  setV 0xF (Z.b2z (any_ne (view scr x0 y0 h w) bits)).

(** *** Decoding and dispatch *)

Definition run_instr (w : world) (instr : Z) : M (option string) :=
  let s := Z.shiftr instr 12 in
  let x := Z.land (Z.shiftr instr 8) 0xF in
  let y := Z.land (Z.shiftr instr 4) 0xF in
  let n := Z.land instr 0xF in
  let kk := Z.land instr 0xff in
  let nnn := Z.land instr 0xfff in
  if s =? 0x0 then
    if x =? 0x0 then
      if kk =? 0xE0 then CLS;; mret (Some "CLS")
      else if kk =? 0xEE then RET;; mret (Some "RET")
      else mret None
    else mret None
  else if s =? 0x1 then JP nnn 0;; mret (Some "JP nnn")
  else if s =? 0x2 then CALL nnn;; mret (Some "CALL nnn")
  else if s =? 0x3 then SE [x; kk] 0;; mret (Some "SE Vx, kk")
  else if s =? 0x4 then SNE [x; kk] 0;; mret (Some "SNE Vx, kk")
  else if s =? 0x5 then SE [x; y] 1;; mret (Some "SE Vx, Vy")
  else if s =? 0x6 then LD w [x; kk] 0;; mret (Some "LD Vx, kk")
  else if s =? 0x7 then ADD [x; kk] 0;; mret (Some "ADD Vx, kk")
  else if s =? 0x8 then
    if n =? 0 then LD w [x; y] 1;; mret (Some "LD Vx, Vy")
    else if n =? 1 then OR x y;; mret (Some "OR Vx, Vy")
    else if n =? 2 then AND x y;; mret (Some "AND Vx, Vy")
    else if n =? 3 then XOR x y;; mret (Some "XOR Vx, Vy")
    else if n =? 4 then ADD [x; y] 1;; mret (Some "ADD Vx, Vy")
    else if n =? 5 then SUB x y;; mret (Some "SUB Vx, Vy")
    else if n =? 6 then SHR x;; mret (Some "SHR Vx {, Vy}")
    else if n =? 7 then SUB y x;; mret (Some "SUBN Vx, Vy")
    else if n =? 0xE then SHL x;; mret (Some "SHL Vx {, Vy}")
    else mret None
  else if s =? 0x9 then SNE [x; y] 1;; mret (Some "SNE Vx, Vy")
  else if s =? 0xA then LD w [nnn] 2;; mret (Some "LD I, nnn")
  else if s =? 0xB then JP nnn 1;; mret (Some "JP V0, nnn")
  else if s =? 0xC then RND w x kk;; mret (Some "RND Vx, kk")
  else if s =? 0xD then DRW x y n;; mret (Some "DRW Vx, Vy, n")
  else if s =? 0xE then
    if kk =? 0x9E then SKP x;; mret (Some "SKP Vx")
    else if kk =? 0xA1 then SKNP x;; mret (Some "SKNP Vx")
    else mret None
  else if s =? 0xF then
    if kk =? 0x07 then LD w [x] 3;; mret (Some "LD Vx, DT")
    else if kk =? 0x0A then LD w [x] 4;; mret (Some "LD Vx, K")
    else if kk =? 0x15 then LD w [x] 5;; mret (Some "LD DT, Vx")
    else if kk =? 0x18 then LD w [x] 6;; mret (Some "LD ST, Vx")
    else if kk =? 0x1E then ADD [x] 2;; mret (Some "ADD I, Vx")
    else if kk =? 0x29 then LD w [x] 7;; mret (Some "LD F, Vx")
    else if kk =? 0x33 then LD w [x] 8;; mret (Some "LD B, Vx")
    else if kk =? 0x55 then LD w [x] 9;; mret (Some "LD [I], Vx")
    else if kk =? 0x65 then LD w [x] 10;; mret (Some "LD Vx, [I]")
    else mret None
  else mret None.

(** *** The run loop *)

(** How an iteration of [while True] ends: it goes round again, or [run]
    returns after printing [INVALID INSTRUCTION: <instr>]. *)
Inductive status :=
  | Continue
  | InvalidInstruction (instr : Z).

(** The timer block, entered when 1/60 s has elapsed. *)
Definition tick : M unit :=
  dt ← gets DT; when (0 <? dt) (modify (with_DT (dt - 1)));;
  st ← gets ST; when (0 <? st) (modify (with_ST (st - 1))).

(** The rest of the loop body: the poll of the input and the timers. *)
Definition poll_and_tick (w : world) : M unit :=
  '(key, val) ← lift (poll_keypress (loop_events w));
  match key with
  | Some k =>
      if Py.truthy k then
        kb ← gets keyboard;
        kb' ← or_raise IndexError (Py.set kb k (uint8 val));
        modify (with_keyboard kb')
      else pass
  | None => pass
  end;;
  when (timer_due w) tick.

Definition iteration (w : world) : M status :=
  pc ← gets PC;
  instr ← fetch_instr pc;
  result ← run_instr w instr;
  match result with
  | None => mret (InvalidInstruction instr)
  | Some name =>
      when (negb (existsb (String.eqb name) pc_modifying)) pc_add2;;
      poll_and_tick w;;
      mret Continue
  end.

(** [while True] over the inputs of successive iterations; when they are
    used up the machine is handed back as it stands at the loop head. *)
Fixpoint loop (ws : list world) : M status :=
  match ws with
  | [] => mret Continue
  | w :: ws' =>
      st ← iteration w;
      match st with
      | Continue => loop ws'
      | InvalidInstruction instr => mret (InvalidInstruction instr)
      end
  end.

Definition run (ws : list world) : M status :=
  modify (with_PC start);; loop ws.

(** [__init__], given the bytes of the program file. *)
Definition init (binary : list Z) : result machine :=
  let zeros (k : nat) : list Z := replicate k 0 in
  let RAM0 := zeros 0x1000%nat in
  match Py.set_slice RAM0 digit_loc (digit_loc + Z.of_nat (length digits)) (uint8 <$> digits) with
  | None => Raise ValueError
  | Some RAM1 =>
    match Py.set_slice RAM1 start (start + Z.of_nat (length binary)) (uint8 <$> binary) with
    | None => Raise ValueError
    | Some RAM2 =>
        Ok (Machine RAM2 (zeros 0x10%nat) (zeros 0x10%nat) 0 0 (-1) 0 0
                    (zeros 0x10%nat)
                    (replicate screen_size.1 (zeros screen_size.2)))
    end
  end.

(** * Statements

    Readers, well-formedness and the properties to be proved. *)

(** ** Well-formed machines

    The shapes and dtypes that [__init__] sets up, and the ranges that the
    instructions maintain (see [iteration_wf] below). *)
Record wf (m : machine) : Prop := WF {
  wf_RAM : length (RAM m) = 4096%nat;
  wf_RAM_u8 : Forall (λ b, 0 ≤ b < 256) (RAM m);
  wf_V : length (V m) = 16%nat;
  wf_V_u8 : Forall (λ b, 0 ≤ b < 256) (V m);
  wf_stack : length (stack m) = 16%nat;
  wf_stack_u16 : Forall (λ a, 0 ≤ a < 65536) (stack m);
  wf_keyboard : length (keyboard m) = 16%nat;
  wf_screen : length (screen m) = 64%nat;
  wf_columns : Forall (λ col : list Z, length col = 32%nat) (screen m);
  wf_I : 0 ≤ I m < 4096;
  wf_PC : 0 ≤ PC m;
  wf_SP : -17 ≤ SP m ≤ 15;
  wf_DT : 0 ≤ DT m < 256;
  wf_ST : 0 ≤ ST m < 256
}.

(** Total readers, for statements. *)
Definition reg (m : machine) (x : Z) : Z := default 0 (V m !! Z.to_nat x).
Definition byte_at (m : machine) (a : Z) : Z := default 0 (RAM m !! Z.to_nat a).
Definition pixel (m : machine) (cx cy : Z) : Z :=
  default 0 (screen m !! Z.to_nat cx ≫= (.!! Z.to_nat cy)).

(** The instruction word with the four given nibbles. *)
Definition word (s x y n : Z) : Z := 0x1000 * s + 0x100 * x + 0x10 * y + n.

(** ** Checking a concrete machine *)

Definition in_range (lo hi v : Z) : bool := (lo <=? v) && (v <? hi).

Definition wf_check (m : machine) : bool :=
  (length (RAM m) =? 4096)%nat && forallb (in_range 0 256) (RAM m)
  && (length (V m) =? 16)%nat && forallb (in_range 0 256) (V m)
  && (length (stack m) =? 16)%nat && forallb (in_range 0 65536) (stack m)
  && (length (keyboard m) =? 16)%nat
  && (length (screen m) =? 64)%nat
  && forallb (λ col : list Z, (length col =? 32)%nat) (screen m)
  && in_range 0 4096 (I m) && (0 <=? PC m) && in_range (-17) 16 (SP m)
  && in_range 0 256 (DT m) && in_range 0 256 (ST m).

(** The last two lines of the program: build the machine from the bytes of
    the file and run it on the given inputs. *)
Definition main (binary : list Z) (ws : list world) : result (status * machine) :=
  match init binary with
  | Ok m => run ws m
  | Raise e => Raise e
  | SysExit => SysExit
  | Hang => Hang
  end.

(** A world in which nothing happens. *)
Definition quiet : world := World 0 [] [] false.

(** A machine with every array zeroed, and the machine that [main] hands
    back (the zeroed one if it hands none back). *)
Definition blank : machine :=
  Machine (replicate 4096 0) (replicate 16 0) (replicate 16 0) 0 start (-1) 0 0
          (replicate 16 0) (replicate 64 (replicate 32 0)).

Definition state_after (binary : list Z) (ws : list world) : machine :=
  match main binary ws with
  | Ok (_, m) => m
  | _ => blank
  end.

(** The three statements as the specification words them: the flag in
    [V[0xF]] and the wrapped result in the destination register, whatever
    the register indices. *)
Definition ADD_Vx_Vy_stated (w : world) (m : machine) (x y : Z) : Prop :=
  ∃ m', run_instr w (word 8 x y 4) m = Ok (Some "ADD Vx, Vy"%string, m')
      ∧ reg m' 0xF = (if 255 <? reg m x + reg m y then 1 else 0)
      ∧ reg m' x = (reg m x + reg m y) mod 256.

Definition SUB_Vx_Vy_stated (w : world) (m : machine) (x y : Z) : Prop :=
  ∃ m', run_instr w (word 8 x y 5) m = Ok (Some "SUB Vx, Vy"%string, m')
      ∧ reg m' 0xF = (if 0 <? reg m x - reg m y then 1 else 0)
      ∧ reg m' x = (reg m x - reg m y) mod 256.

Definition SUBN_Vx_Vy_stated (w : world) (m : machine) (x y : Z) : Prop :=
  ∃ m', run_instr w (word 8 x y 7) m = Ok (Some "SUBN Vx, Vy"%string, m')
      ∧ reg m' 0xF = (if 0 <? reg m y - reg m x then 1 else 0)
      ∧ reg m' y = (reg m y - reg m x) mod 256
      ∧ reg m' x = reg m x.

(** Machines used as examples: registers loaded by the first instructions
    of a program. *)
Definition alu_example : machine :=
  state_after [0x60; 0x05; 0x61; 0x03] [quiet; quiet].     (* V0 = 5, V1 = 3 *)
Definition flag_operand_example : machine :=
  state_after [0x6F; 0x05; 0x60; 0x03] [quiet; quiet].     (* VF = 5, V0 = 3 *)

(** Instruction words with an 8-bit or a 12-bit operand. *)
Definition word_kk (s x kk : Z) : Z := 0x1000 * s + 0x100 * x + kk.
Definition word_nnn (s nnn : Z) : Z := 0x1000 * s + nnn.

(** The instruction that the loop is about to fetch. *)
Definition next_instr (m : machine) (instr : Z) : Prop :=
  fetch_instr (PC m) m = Ok (instr, m).

(** The loop's poll of the input returns (no Escape key, no QUIT event). *)
Definition keeps_running (w : world) : Prop :=
  ∃ kv, poll_keypress (loop_events w) = Ok kv.

(** What [poll_and_tick] leaves alone: everything but the keyboard vector
    and the two timers. *)
Definition same_core (m m' : machine) : Prop :=
  RAM m' = RAM m ∧ V m' = V m ∧ stack m' = stack m ∧ I m' = I m
  ∧ PC m' = PC m ∧ SP m' = SP m ∧ screen m' = screen m.

(** ** Conditional skips *)

Inductive skip :=
  | SE_Vx_kk (x kk : Z)     (* 3xkk *)
  | SNE_Vx_kk (x kk : Z)    (* 4xkk *)
  | SE_Vx_Vy (x y : Z)      (* 5xy0 *)
  | SNE_Vx_Vy (x y : Z)     (* 9xy0 *)
  | SKP_Vx (x : Z)          (* Ex9E *)
  | SKNP_Vx (x : Z).        (* ExA1 *)

Definition skip_word (i : skip) : Z :=
  match i with
  | SE_Vx_kk x kk => word_kk 3 x kk
  | SNE_Vx_kk x kk => word_kk 4 x kk
  | SE_Vx_Vy x y => word 5 x y 0
  | SNE_Vx_Vy x y => word 9 x y 0
  | SKP_Vx x => word_kk 0xE x 0x9E
  | SKNP_Vx x => word_kk 0xE x 0xA1
  end.

Definition skip_operands (i : skip) : Prop :=
  match i with
  | SE_Vx_kk x kk | SNE_Vx_kk x kk => 0 ≤ x < 16 ∧ 0 ≤ kk < 256
  | SE_Vx_Vy x y | SNE_Vx_Vy x y => 0 ≤ x < 16 ∧ 0 ≤ y < 16
  | SKP_Vx x | SKNP_Vx x => 0 ≤ x < 16
  end.

(** Key [k] of the keypad is down; there is no key beyond the sixteen of
    the keyboard vector. *)
Definition key_down (m : machine) (k : Z) : bool :=
  Py.truthy (default 0 (keyboard m !! Z.to_nat k)).

Definition skip_condition (i : skip) (m : machine) : bool :=
  match i with
  | SE_Vx_kk x kk => reg m x =? kk
  | SNE_Vx_kk x kk => negb (reg m x =? kk)
  | SE_Vx_Vy x y => reg m x =? reg m y
  | SNE_Vx_Vy x y => negb (reg m x =? reg m y)
  | SKP_Vx x => key_down m (reg m x)
  | SKNP_Vx x => negb (key_down m (reg m x))
  end.

(** The statement, in its two layers.  The instruction on its own adds 2 to
    the program counter when its condition holds and leaves the machine as
    it is otherwise; its name is not among [pc_modifying], so the loop adds
    2 to whatever the instruction left, whether it skipped or not; the
    iteration so completes with the program counter moved by 4 or by 2. *)
Definition skip_stated (w : world) (m : machine) (i : skip) : Prop :=
  ∃ name m1 m',
    run_instr w (skip_word i) m = Ok (Some name, m1)
    ∧ m1 = (if skip_condition i m then with_PC (PC m + 2) m else m)
    ∧ existsb (String.eqb name) pc_modifying = false
    ∧ iteration w m = Ok (Continue, m')
    ∧ same_core (with_PC (PC m1 + 2) m1) m'
    ∧ PC m' = PC m + (if skip_condition i m then 4 else 2).

(** [SKP] and [SKNP] index the keyboard vector with [V[x]]. *)
Definition key_operand_valid (i : skip) (m : machine) : Prop :=
  match i with
  | SKP_Vx x | SKNP_Vx x => reg m x < 16
  | _ => True
  end.

Definition bad_key_example : machine :=
  state_after [0x60; 0x10; 0xE0; 0x9E] [quiet].            (* V0 = 0x10, then SKP V0 *)

(** ** Call stack *)

(** The statement: either fault ends the iteration with an exception. *)
Definition faults (w : world) (m : machine) : Prop :=
  ∃ e, iteration w m = Raise e.

Definition empty_stack_example : machine :=
  state_after [0x00; 0xEE] [].                             (* RET first *)
Definition call_example : machine :=
  state_after [0x22; 0x04; 0x00; 0x00; 0x00; 0xEE] [].     (* CALL 0x204; at 0x204: RET *)
Definition jump_example : machine :=
  state_after [0x60; 0x07; 0xB3; 0x00] [quiet].            (* V0 = 7, then JP V0, 0x300 *)

(** A program that calls itself: the state in which sixteen return
    addresses are stacked. *)
Definition full_stack_example : machine :=
  state_after [0x22; 0x00] (replicate 16 quiet).

Definition skip_example : machine :=
  state_after [0x60; 0x05; 0x30; 0x05] [quiet].            (* V0 = 5, then SE V0, 5 *)

(** ** The instruction table of the specification

    One pattern per documented entry, written as in the table: a
    hexadecimal digit selects, a letter ([x], [y], [n], [k]) stands for an
    operand nibble. *)
Inductive nibble_pattern :=
  | Hex (d : Z)
  | Operand.

Definition instruction_table : list (string * list nibble_pattern) :=
  let o := Operand in
  [ ("CLS",           [Hex 0; Hex 0; Hex 0xE; Hex 0]);
    ("RET",           [Hex 0; Hex 0; Hex 0xE; Hex 0xE]);
    ("JP nnn",        [Hex 1; o; o; o]);
    ("CALL nnn",      [Hex 2; o; o; o]);
    ("SE Vx, kk",     [Hex 3; o; o; o]);
    ("SNE Vx, kk",    [Hex 4; o; o; o]);
    ("SE Vx, Vy",     [Hex 5; o; o; Hex 0]);
    ("SNE Vx, Vy",    [Hex 9; o; o; Hex 0]);
    ("LD Vx, kk",     [Hex 6; o; o; o]);
    ("ADD Vx, kk",    [Hex 7; o; o; o]);
    ("LD Vx, Vy",     [Hex 8; o; o; Hex 0]);
    ("OR Vx, Vy",     [Hex 8; o; o; Hex 1]);
    ("AND Vx, Vy",    [Hex 8; o; o; Hex 2]);
    ("XOR Vx, Vy",    [Hex 8; o; o; Hex 3]);
    ("ADD Vx, Vy",    [Hex 8; o; o; Hex 4]);
    ("SUB Vx, Vy",    [Hex 8; o; o; Hex 5]);
    ("SHR Vx {, Vy}", [Hex 8; o; o; Hex 6]);
    ("SUBN Vx, Vy",   [Hex 8; o; o; Hex 7]);
    ("SHL Vx {, Vy}", [Hex 8; o; o; Hex 0xE]);
    ("LD I, nnn",     [Hex 0xA; o; o; o]);
    ("JP V0, nnn",    [Hex 0xB; o; o; o]);
    ("RND Vx, kk",    [Hex 0xC; o; o; o]);
    ("DRW Vx, Vy, n", [Hex 0xD; o; o; o]);
    ("SKP Vx",        [Hex 0xE; o; Hex 9; Hex 0xE]);
    ("SKNP Vx",       [Hex 0xE; o; Hex 0xA; Hex 1]);
    ("LD Vx, DT",     [Hex 0xF; o; Hex 0; Hex 7]);
    ("LD Vx, K",      [Hex 0xF; o; Hex 0; Hex 0xA]);
    ("LD DT, Vx",     [Hex 0xF; o; Hex 1; Hex 5]);
    ("LD ST, Vx",     [Hex 0xF; o; Hex 1; Hex 8]);
    ("ADD I, Vx",     [Hex 0xF; o; Hex 1; Hex 0xE]);
    ("LD F, Vx",      [Hex 0xF; o; Hex 2; Hex 9]);
    ("LD B, Vx",      [Hex 0xF; o; Hex 3; Hex 3]);
    ("LD [I], Vx",    [Hex 0xF; o; Hex 5; Hex 5]);
    ("LD Vx, [I]",    [Hex 0xF; o; Hex 6; Hex 5]) ]%string.

(** The four hexadecimal digits of a 16-bit word, most significant first. *)
Definition nibbles (instr : Z) : list Z :=
  [instr / 0x1000; instr / 0x100 mod 0x10; instr / 0x10 mod 0x10; instr mod 0x10].

Definition matches (pattern : list nibble_pattern) (digits : list Z) : bool :=
  forallb (λ pd : nibble_pattern * Z,
             match pd.1 with Hex h => h =? pd.2 | Operand => true end)
          (zip pattern digits).

(** The word matches an entry of the documented table. *)
Definition documented (instr : Z) : bool :=
  let ds := nibbles instr in
  existsb (λ e : string * list nibble_pattern, matches e.2 ds) instruction_table.

(** The same with families 5 and 9 selected by their first digit alone. *)
Definition accepted (instr : Z) : bool :=
  documented instr || (instr / 0x1000 =? 5) || (instr / 0x1000 =? 9).

(** The statement: the iteration that fetches the word reports it as
    invalid and hands the machine back untouched, and the loop stops there
    whatever input remains. *)
Definition invalid_stated (w : world) (ws : list world) (m : machine) (instr : Z) : Prop :=
  iteration w m = Ok (InvalidInstruction instr, m)
  ∧ loop (w :: ws) m = Ok (InvalidInstruction instr, m).

(** The tests of [run_instr] alone: does it reach a [return]? *)
Definition decodes (instr : Z) : bool :=
  let s := Z.shiftr instr 12 in
  let x := Z.land (Z.shiftr instr 8) 0xF in
  let n := Z.land instr 0xF in
  let kk := Z.land instr 0xff in
  if s =? 0x0 then
    if x =? 0x0 then (kk =? 0xE0) || (kk =? 0xEE) else false
  else if s =? 0x8 then
    (n =? 0) || (n =? 1) || (n =? 2) || (n =? 3) || (n =? 4) || (n =? 5)
    || (n =? 6) || (n =? 7) || (n =? 0xE)
  else if s =? 0xE then (kk =? 0x9E) || (kk =? 0xA1)
  else if s =? 0xF then
    (kk =? 0x07) || (kk =? 0x0A) || (kk =? 0x15) || (kk =? 0x18) || (kk =? 0x1E)
    || (kk =? 0x29) || (kk =? 0x33) || (kk =? 0x55) || (kk =? 0x65)
  else (s =? 0x1) || (s =? 0x2) || (s =? 0x3) || (s =? 0x4) || (s =? 0x5)
       || (s =? 0x6) || (s =? 0x7) || (s =? 0x9) || (s =? 0xA) || (s =? 0xB)
       || (s =? 0xC) || (s =? 0xD).

Definition lenient_example : machine :=
  state_after [0x50; 0x01] [].                             (* 0x5001 first *)
Definition invalid_example : machine :=
  state_after [0xFF; 0xFF] [].                             (* 0xFFFF first *)

(** [P] holds of the [count] integers from [i] on. *)
Fixpoint all_from (count : nat) (i : Z) (P : Z → bool) : bool :=
  match count with
  | O => true
  | S count' => P i && all_from count' (i + 1) P
  end.

(** ** Reachable machines *)

(** The machine at the head of the loop: after [__init__] and the first
    statement of [run], and after each completed iteration. *)
Inductive reachable (binary : list Z) : machine → Prop :=
  | reachable_start m :
      init binary = Ok m → reachable binary (with_PC start m)
  | reachable_iteration w m m' :
      reachable binary m → iteration w m = Ok (Continue, m') →
      reachable binary m'.

(** [count] entries into the timer block, one after the other. *)
Fixpoint ticks (count : nat) : M unit :=
  match count with
  | O => pass
  | S count' => tick;; ticks count'
  end.

Definition countdown_example : machine :=
  state_after [0x60; 0x03; 0xF0; 0x15; 0xF0; 0x18] [quiet; quiet; quiet].
                                                           (* DT = ST = 3 *)




                                              (* DT = ST = 3, then JP 0x206 for ever *)

(** The machine that an instruction hands back (the machine itself if it
    hands none back). *)
Definition after_instr (w : world) (instr : Z) (m : machine) : machine :=
  match run_instr w instr m with
  | Ok (_, m') => m'
  | _ => m
  end.

(** ** Drawing *)

(** Bit [c] (0 is the leftmost, most significant) of row [r] of the sprite
    that starts at address [I]. *)
Definition sprite_bit (m : machine) (r c : Z) : Z :=
  Z.b2z (Z.testbit (byte_at m (I m + r)) (7 - c)).

(** Pixel [(cx, cy)] lies under the 8-by-[n] sprite whose top-left corner is
    at [(ox, oy)]; nothing wraps around. *)
Definition covers (ox oy n cx cy : Z) : bool :=
  (ox <=? cx) && (cx <? ox + 8) && (oy <=? cy) && (cy <? oy + n).

Definition on_screen (cx cy : Z) : Prop := 0 ≤ cx < 64 ∧ 0 ≤ cy < 32.

(** What [DRW Vx, Vy, n] leaves behind: each pixel under the sprite is
    XORed with its sprite bit and the others are as before; [V[0xF]] is 1
    exactly when some pixel under the sprite now differs from its sprite
    bit, and 0 otherwise; the other registers and the rest of the machine
    are as before. *)
Definition drawn (x y n : Z) (m m' : machine) : Prop :=
  let ox := reg m x in
  let oy := reg m y in
  (∀ cx cy, on_screen cx cy →
     pixel m' cx cy =
       if covers ox oy n cx cy
       then Z.lxor (pixel m cx cy) (sprite_bit m (cy - oy) (cx - ox))
       else pixel m cx cy)
  ∧ (reg m' 0xF = 1 ∨ reg m' 0xF = 0)
  ∧ (reg m' 0xF = 1 ↔
     ∃ cx cy, on_screen cx cy ∧ covers ox oy n cx cy = true
              ∧ pixel m' cx cy ≠ sprite_bit m (cy - oy) (cx - ox))
  ∧ (∀ r, 0 ≤ r < 15 → reg m' r = reg m r)
  ∧ with_V (V m) (with_screen (screen m) m') = m.

(** The statement of the specification, for every height up to 15 and all
    register indices. *)
Definition DRW_stated (w : world) (m : machine) (x y n : Z) : Prop :=
  ∃ m', run_instr w (word 0xD x y n) m = Ok (Some "DRW Vx, Vy, n"%string, m')
      ∧ drawn x y n m m'.

Definition sprite_example : machine :=
  state_after [0xA2; 0x04; 0xD0; 0x01; 0xFF] [quiet].      (* I = 0x204, where 0xFF is *)
Definition sprite_past_memory_example : machine :=
  state_after [0xAF; 0xFE; 0xD0; 0x03] [quiet].            (* I = 0xFFE, then DRW V0, V0, 3 *)

(** [m'] is [m] with register [x] holding [v]: the other registers and
    every other field are as in [m]. *)
Definition only_register (x v : Z) (m m' : machine) : Prop :=
  reg m' x = v
  ∧ (∀ r, 0 ≤ r < 16 → r ≠ x → reg m' r = reg m r)
  ∧ with_V (V m) m' = m.

(** * Properties *)

(** ** Indexing *)

Section indexing.
Context {A : Type}.
Implicit Types (l : list A) (i : Z).

Lemma index_in_range (len : nat) i :
  0 ≤ i < Z.of_nat len → Py.index len i = Some (Z.to_nat i).
Proof.
  intros Hi. unfold Py.index.
  destruct (Z.leb_spec 0 i), (Z.ltb_spec i (Z.of_nat len)); simpl; try lia; done.
Qed.

Lemma index_negative (len : nat) i :
  - Z.of_nat len ≤ i < 0 → Py.index len i = Some (Z.to_nat (Z.of_nat len + i)).
Proof.
  intros Hi. unfold Py.index.
  destruct (Z.leb_spec 0 i), (Z.leb_spec (- Z.of_nat len) i), (Z.ltb_spec i 0);
    simpl; try lia; done.
Qed.

Lemma index_out_of_range (len : nat) i :
  i < - Z.of_nat len ∨ Z.of_nat len ≤ i → Py.index len i = None.
Proof.
  intros Hi. unfold Py.index.
  destruct (Z.leb_spec 0 i), (Z.ltb_spec i (Z.of_nat len)),
    (Z.leb_spec (- Z.of_nat len) i), (Z.ltb_spec i 0); simpl; try lia; done.
Qed.

Lemma index_Some_lt (len : nat) i k : Py.index len i = Some k → (k < len)%nat.
Proof.
  unfold Py.index.
  destruct (Z.leb_spec 0 i), (Z.ltb_spec i (Z.of_nat len)),
    (Z.leb_spec (- Z.of_nat len) i), (Z.ltb_spec i 0); simpl;
    intros [= <-]; lia.
Qed.

Lemma get_in_range l i d :
  0 ≤ i < Z.of_nat (length l) → Py.get l i = Some (default d (l !! Z.to_nat i)).
Proof.
  intros Hi. unfold Py.get. rewrite index_in_range by done. simpl.
  destruct (lookup_lt_is_Some_2 l (Z.to_nat i)) as [a ->]; [lia | done].
Qed.

Lemma set_in_range l i v :
  0 ≤ i < Z.of_nat (length l) → Py.set l i v = Some (<[Z.to_nat i := v]> l).
Proof. intros Hi. unfold Py.set. by rewrite index_in_range. Qed.

Lemma set_length l i v l' : Py.set l i v = Some l' → length l' = length l.
Proof.
  unfold Py.set. destruct (Py.index _ _); simpl; [|done].
  intros [= <-]. apply length_insert.
Qed.
End indexing.

(** ** Running monadic code *)

Lemma bind_Ok {A B} (c : M A) (f : A → M B) m a m' :
  c m = Ok (a, m') → (c ≫= f) m = f a m'.
Proof. unfold mbind, M_bind. by intros ->. Qed.

Lemma bind_Raise {A B} (c : M A) (f : A → M B) m e :
  c m = Raise e → (c ≫= f) m = Raise e.
Proof. unfold mbind, M_bind. by intros ->. Qed.

Lemma bind_inv {A B} (c : M A) (f : A → M B) m b m' :
  (c ≫= f) m = Ok (b, m') → ∃ a m1, c m = Ok (a, m1) ∧ f a m1 = Ok (b, m').
Proof.
  unfold mbind, M_bind. destruct (c m) as [[a m1]| | |]; [eauto|done..].
Qed.

Lemma getV_Ok m x :
  length (V m) = 16%nat → 0 ≤ x < 16 → getV x m = Ok (reg m x, m).
Proof.
  intros Hlen Hx. unfold getV, gets, mbind, M_bind, or_raise, reg.
  rewrite (get_in_range _ _ 0) by (rewrite Hlen; lia). done.
Qed.

Lemma setV_Ok m x v :
  length (V m) = 16%nat → 0 ≤ x < 16 →
  setV x v m = Ok (tt, with_V (<[Z.to_nat x := uint8 v]> (V m)) m).
Proof.
  intros Hlen Hx. unfold setV, gets, mbind, M_bind, or_raise.
  rewrite set_in_range by (rewrite Hlen; lia). done.
Qed.

Lemma reg_insert_eq m x v vs :
  length vs = 16%nat → 0 ≤ x < 16 → reg (with_V (<[Z.to_nat x := v]> vs) m) x = v.
Proof.
  intros Hlen Hx. unfold reg. simpl.
  rewrite list_lookup_insert_eq by lia. done.
Qed.

Lemma reg_insert_ne m x r v vs :
  0 ≤ x → 0 ≤ r → x ≠ r →
  reg (with_V (<[Z.to_nat x := v]> vs) m) r = default 0 (vs !! Z.to_nat r).
Proof.
  intros Hx Hr Hne. unfold reg. simpl.
  rewrite list_lookup_insert_ne by lia. done.
Qed.

(** ** Decoding *)

Lemma word_fields s x y n :
  0 ≤ s < 16 → 0 ≤ x < 16 → 0 ≤ y < 16 → 0 ≤ n < 16 →
  Z.shiftr (word s x y n) 12 = s
  ∧ Z.land (Z.shiftr (word s x y n) 8) 0xF = x
  ∧ Z.land (Z.shiftr (word s x y n) 4) 0xF = y
  ∧ Z.land (word s x y n) 0xF = n
  ∧ Z.land (word s x y n) 0xff = 0x10 * y + n
  ∧ Z.land (word s x y n) 0xfff = 0x100 * x + 0x10 * y + n.
Proof.
  intros Hs Hx Hy Hn. unfold word.
  rewrite !Z.shiftr_div_pow2 by lia.
  change 0xF with (Z.ones 4). change 0xff with (Z.ones 8). change 0xfff with (Z.ones 12).
  rewrite !Z.land_ones by lia.
  change (2 ^ 12) with 4096. change (2 ^ 8) with 256. change (2 ^ 4) with 16.
  repeat split; Z.div_mod_to_equations; lia.
Qed.

Lemma in_range_spec lo hi v : in_range lo hi v = true ↔ lo ≤ v < hi.
Proof. unfold in_range. rewrite andb_true_iff, Z.leb_le, Z.ltb_lt. done. Qed.

Lemma forallb_in_range lo hi (l : list Z) :
  forallb (in_range lo hi) l = true → Forall (λ v, lo ≤ v < hi) l.
Proof.
  rewrite forallb_forall, Forall_forall. intros H v Hv.
  apply in_range_spec, H. by apply list_elem_of_In.
Qed.

Lemma wf_check_sound m : wf_check m = true → wf m.
Proof.
  unfold wf_check. rewrite !andb_true_iff, !Nat.eqb_eq, !in_range_spec, Z.leb_le.
  intros [[[[[[[[[[[[[? ?] ?] ?] ?] ?] ?] ?] Hcols] ?] ?] ?] ?] ?].
  split; try done; try lia; try by apply forallb_in_range.
  rewrite forallb_forall in Hcols. apply Forall_forall. intros col Hcol.
  apply Nat.eqb_eq, Hcols. by apply list_elem_of_In.
Qed.

(** ** Arithmetic with a flag: [ADD Vx, Vy], [SUB Vx, Vy], [SUBN Vx, Vy] *)

Ltac regs_len := simpl; rewrite ?length_insert; assumption.

Lemma ADD_Vx_Vy_Ok m x y :
  length (V m) = 16%nat → 0 ≤ x < 16 → 0 ≤ y < 16 →
  ADD [x; y] 1 m =
    Ok (tt, with_V (<[Z.to_nat x := uint8 (reg m x + reg m y)]>
                    (<[15%nat := uint8 (Z.b2z (0xff <? reg m x + reg m y))]> (V m))) m).
Proof.
  intros Hlen Hx Hy. unfold ADD. simpl.
  rewrite (bind_Ok _ _ _ _ _ (getV_Ok m x Hlen Hx)).
  rewrite (bind_Ok _ _ _ _ _ (getV_Ok m y Hlen Hy)).
  erewrite bind_Ok by (apply setV_Ok; [regs_len | lia]).
  rewrite setV_Ok by (regs_len || lia).
  done.
Qed.

Lemma SUB_Ok m x y :
  length (V m) = 16%nat → 0 ≤ x < 16 → 0 ≤ y < 16 →
  SUB x y m =
    Ok (tt, with_V (<[Z.to_nat x := uint8 (reg m x - reg m y)]>
                    (<[15%nat := uint8 (Z.b2z (0 <? reg m x - reg m y))]> (V m))) m).
Proof.
  intros Hlen Hx Hy. unfold SUB.
  rewrite (bind_Ok _ _ _ _ _ (getV_Ok m x Hlen Hx)).
  rewrite (bind_Ok _ _ _ _ _ (getV_Ok m y Hlen Hy)).
  erewrite bind_Ok by (apply setV_Ok; [regs_len | lia]).
  rewrite setV_Ok by (regs_len || lia).
  done.
Qed.

(** What two successive stores [V[0xF] = f; V[x] = v] leave in the
    registers. *)
Lemma flag_then_store m x f v :
  length (V m) = 16%nat → 0 ≤ x < 16 →
  let m' := with_V (<[Z.to_nat x := v]> (<[15%nat := f]> (V m))) m in
  reg m' x = v
  ∧ (x ≠ 0xF → reg m' 0xF = f)
  ∧ (∀ r, 0 ≤ r < 16 → r ≠ x → r ≠ 0xF → reg m' r = reg m r).
Proof.
  intros Hlen Hx m'. subst m'. repeat split.
  - apply reg_insert_eq; [regs_len | done].
  - intros Hne. rewrite reg_insert_ne by lia.
    change (Z.to_nat 15) with 15%nat. rewrite list_lookup_insert_eq by lia. done.
  - intros r Hr Hrx HrF. rewrite reg_insert_ne by lia.
    rewrite list_lookup_insert_ne by lia. done.
Qed.

Lemma uint8_b2z b : uint8 (Z.b2z b) = if b then 1 else 0.
Proof. by destruct b. Qed.

Lemma run_instr_8xy4 w m x y :
  0 ≤ x < 16 → 0 ≤ y < 16 →
  run_instr w (word 8 x y 4) m = (ADD [x; y] 1;; mret (Some "ADD Vx, Vy"%string)) m.
Proof.
  intros Hx Hy. unfold run_instr.
  destruct (word_fields 8 x y 4) as (-> & -> & -> & -> & -> & ->); try lia.
  done.
Qed.

Lemma run_instr_8xy5 w m x y :
  0 ≤ x < 16 → 0 ≤ y < 16 →
  run_instr w (word 8 x y 5) m = (SUB x y;; mret (Some "SUB Vx, Vy"%string)) m.
Proof.
  intros Hx Hy. unfold run_instr.
  destruct (word_fields 8 x y 5) as (-> & -> & -> & -> & -> & ->); try lia.
  done.
Qed.

Lemma run_instr_8xy7 w m x y :
  0 ≤ x < 16 → 0 ≤ y < 16 →
  run_instr w (word 8 x y 7) m = (SUB y x;; mret (Some "SUBN Vx, Vy"%string)) m.
Proof.
  intros Hx Hy. unfold run_instr.
  destruct (word_fields 8 x y 7) as (-> & -> & -> & -> & -> & ->); try lia.
  done.
Qed.


Lemma ADD_Vx_Vy_run w m x y :
  wf m → 0 ≤ x < 16 → 0 ≤ y < 16 →
  ∃ m', run_instr w (word 8 x y 4) m = Ok (Some "ADD Vx, Vy"%string, m')
      ∧ reg m' x = (reg m x + reg m y) mod 256
      ∧ (x ≠ 0xF → reg m' 0xF = if 255 <? reg m x + reg m y then 1 else 0)
      ∧ (∀ r, 0 ≤ r < 16 → r ≠ x → r ≠ 0xF → reg m' r = reg m r).
Proof.
  intros Hwf Hx Hy. pose proof (wf_V m Hwf) as Hlen.
  eexists. split.
  { rewrite run_instr_8xy4 by done.
    erewrite bind_Ok by (by apply ADD_Vx_Vy_Ok). done. }
  rewrite uint8_b2z. by apply flag_then_store.
Qed.

Lemma SUB_run m x y :
  wf m → 0 ≤ x < 16 → 0 ≤ y < 16 →
  ∃ m', SUB x y m = Ok (tt, m')
      ∧ reg m' x = (reg m x - reg m y) mod 256
      ∧ (x ≠ 0xF → reg m' 0xF = if 0 <? reg m x - reg m y then 1 else 0)
      ∧ (∀ r, 0 ≤ r < 16 → r ≠ x → r ≠ 0xF → reg m' r = reg m r).
Proof.
  intros Hwf Hx Hy. pose proof (wf_V m Hwf) as Hlen.
  eexists. split; [by apply SUB_Ok|].
  rewrite uint8_b2z. by apply flag_then_store.
Qed.

(** C8, as amended.  [ADD Vx, Vy] (8xy4) stores the sum wrapped modulo 256
    into [V[x]]; for [x] other than 0xF it leaves in [V[0xF]] 1 if the
    unsigned sum exceeds 255 and 0 otherwise, as stated.  For [x = 0xF] the
    store of the sum comes last, and [V[0xF]] holds the wrapped sum.  After
    [V[0] = 5] and [V[1] = 3], instruction 0x8014 yields [V[0] = 8] and
    [V[0xF] = 0]. *)
Theorem ADD_Vx_Vy_carry :
  (∀ w m x y, wf m → 0 ≤ x < 16 → 0 ≤ y < 16 → x ≠ 0xF →
     ADD_Vx_Vy_stated w m x y)
  ∧ (∀ w m y, wf m → 0 ≤ y < 16 →
       ∃ m', run_instr w (word 8 0xF y 4) m = Ok (Some "ADD Vx, Vy"%string, m')
           ∧ reg m' 0xF = (reg m 0xF + reg m y) mod 256)
  ∧ (∃ m', main [0x60; 0x05; 0x61; 0x03; 0x80; 0x14] [quiet; quiet; quiet]
             = Ok (Continue, m')
         ∧ reg m' 0 = 8 ∧ reg m' 0xF = 0).
Proof.
  split; [|split].
  - intros w m x y Hwf Hx Hy HxF.
    destruct (ADD_Vx_Vy_run w m x y) as (m' & Hrun & Hsum & Hflag & _); try done.
    exists m'. auto.
  - intros w m y Hwf Hy.
    destruct (ADD_Vx_Vy_run w m 0xF y) as (m' & Hrun & Hsum & _); try done.
    exists m'. auto.
  - eexists. split; [vm_compute; reflexivity|]. by vm_compute.
Qed.

(** C2, as amended.  [SUB Vx, Vy] (8xy5) stores the difference
    [V[x] - V[y]] wrapped modulo 256 into [V[x]]; for [x] other than 0xF it
    leaves in [V[0xF]] 1 if the signed difference is strictly greater than 0
    and 0 otherwise, as stated.  For [x = 0xF] the store of the difference
    comes last, and [V[0xF]] holds the wrapped difference. *)
Theorem SUB_Vx_Vy_flag :
  (∀ w m x y, wf m → 0 ≤ x < 16 → 0 ≤ y < 16 → x ≠ 0xF →
     SUB_Vx_Vy_stated w m x y)
  ∧ (∀ w m y, wf m → 0 ≤ y < 16 →
       ∃ m', run_instr w (word 8 0xF y 5) m = Ok (Some "SUB Vx, Vy"%string, m')
           ∧ reg m' 0xF = (reg m 0xF - reg m y) mod 256).
Proof.
  split.
  - intros w m x y Hwf Hx Hy HxF.
    destruct (SUB_run m x y) as (m' & Hrun & Hdiff & Hflag & _); try done.
    exists m'. rewrite run_instr_8xy5 by done.
    erewrite bind_Ok by exact Hrun. auto.
  - intros w m y Hwf Hy.
    destruct (SUB_run m 0xF y) as (m' & Hrun & Hdiff & _); try done.
    exists m'. rewrite run_instr_8xy5 by done.
    erewrite bind_Ok by exact Hrun. auto.
Qed.

(** C10.  For register indices [x ≠ y], both different from 0xF, the
    instruction 8xy7 computes [V[y] - V[x]], sets [V[0xF]] to 1 if that
    difference is strictly positive and to 0 otherwise, stores the wrapped
    difference into [V[y]], and leaves [V[x]] unchanged. *)
Theorem SUBN_stores_into_Vy w m x y :
  wf m → 0 ≤ x < 16 → 0 ≤ y < 16 → x ≠ y → x ≠ 0xF → y ≠ 0xF →
  SUBN_Vx_Vy_stated w m x y.
Proof.
  intros Hwf Hx Hy Hxy HxF HyF.
  destruct (SUB_run m y x) as (m' & Hrun & Hdiff & Hflag & Hframe); try done.
  exists m'. rewrite run_instr_8xy7 by done.
  erewrite bind_Ok by exact Hrun. repeat split; auto.
Qed.

Lemma ADD_Vx_Vy_carry_witness :
  wf alu_example ∧ 0 ≤ 0 < 16 ∧ 0 ≤ 1 < 16 ∧ 0 ≠ 0xF
  ∧ ADD_Vx_Vy_stated quiet alu_example 0 1.
Proof.
  split; [apply wf_check_sound; vm_compute; reflexivity|].
  split; [lia|]. split; [lia|]. split; [lia|].
  apply (proj1 ADD_Vx_Vy_carry quiet alu_example 0 1);
    [apply wf_check_sound; vm_compute; reflexivity | lia..].
Defined.

(** With [x = 0xF], [VF = 5] and [V0 = 3]: the sum 8 is what [V[0xF]] holds
    afterwards, not the carry 0. *)
Lemma ADD_VF_V0_loses_carry :
  wf flag_operand_example ∧ 0 ≤ 0xF < 16 ∧ 0 ≤ 0 < 16
  ∧ ¬ ADD_Vx_Vy_stated quiet flag_operand_example 0xF 0.
Proof.
  split; [apply wf_check_sound; vm_compute; reflexivity|].
  split; [lia|]. split; [lia|].
  intros (m' & Hrun & Hflag & Hsum).
  vm_compute in Hrun. injection Hrun as <-.
  vm_compute in Hflag. discriminate.
Qed.

Lemma SUB_Vx_Vy_flag_witness :
  wf alu_example ∧ 0 ≤ 0 < 16 ∧ 0 ≤ 1 < 16 ∧ 0 ≠ 0xF
  ∧ SUB_Vx_Vy_stated quiet alu_example 0 1.
Proof.
  split; [apply wf_check_sound; vm_compute; reflexivity|].
  split; [lia|]. split; [lia|]. split; [lia|].
  apply (proj1 SUB_Vx_Vy_flag quiet alu_example 0 1);
    [apply wf_check_sound; vm_compute; reflexivity | lia..].
Defined.

(** With [x = 0xF], [VF = 5] and [V0 = 3]: the difference 2 is what
    [V[0xF]] holds afterwards, not the flag 1. *)
Lemma SUB_VF_V0_loses_flag :
  wf flag_operand_example ∧ 0 ≤ 0xF < 16 ∧ 0 ≤ 0 < 16
  ∧ ¬ SUB_Vx_Vy_stated quiet flag_operand_example 0xF 0.
Proof.
  split; [apply wf_check_sound; vm_compute; reflexivity|].
  split; [lia|]. split; [lia|].
  intros (m' & Hrun & Hflag & Hdiff).
  vm_compute in Hrun. injection Hrun as <-.
  vm_compute in Hflag. discriminate.
Qed.

Lemma SUBN_stores_into_Vy_witness :
  wf alu_example ∧ 0 ≤ 0 < 16 ∧ 0 ≤ 1 < 16 ∧ 0 ≠ 1 ∧ 0 ≠ 0xF ∧ 1 ≠ 0xF
  ∧ SUBN_Vx_Vy_stated quiet alu_example 0 1.
Proof.
  split; [apply wf_check_sound; vm_compute; reflexivity|].
  split; [lia|]. split; [lia|]. split; [lia|]. split; [lia|]. split; [lia|].
  apply (SUBN_stores_into_Vy quiet alu_example 0 1);
    [apply wf_check_sound; vm_compute; reflexivity | lia..].
Defined.

(** ** The loop body around an instruction *)

Lemma get_key_range n k : get_key n = Some k → 0 ≤ k < 16.
Proof.
  unfold get_key. destruct (n <? 0x80)%N; [|done].
  destruct (list_index _ _) as [i|]; simpl; [|done].
  intros Hk. apply list_elem_of_lookup_2 in Hk.
  unfold key_values in Hk. rewrite !elem_of_cons, elem_of_nil in Hk. lia.
Qed.

Lemma poll_keypress_range events k v :
  poll_keypress events = Ok (Some k, v) → 0 ≤ k < 16 ∧ 0 ≤ v ≤ 1.
Proof.
  induction events as [|[key|key| |] events IH]; simpl; try done.
  - destruct (key =? K_ESCAPE)%N; [done|].
    destruct (get_key key) as [k'|] eqn:Hkey; [|done].
    intros [= <- <-]. split; [by eapply get_key_range | lia].
  - destruct (get_key key) as [k'|] eqn:Hkey; [|done].
    intros [= <- <-]. split; [by eapply get_key_range | lia].
Qed.

Lemma tick_Ok m :
  ∃ m', tick m = Ok (tt, m') ∧ same_core m m' ∧ keyboard m' = keyboard m
      ∧ DT m' = (if 0 <? DT m then DT m - 1 else DT m)
      ∧ ST m' = (if 0 <? ST m then ST m - 1 else ST m).
Proof.
  unfold tick, mbind, M_bind, gets, when, modify, pass, mret, M_ret.
  destruct (0 <? DT m); simpl; destruct (0 <? ST m); simpl;
    eexists; (split; [reflexivity|]); unfold same_core; simpl; done.
Qed.

Lemma poll_and_tick_Ok w m :
  length (keyboard m) = 16%nat → keeps_running w →
  ∃ m', poll_and_tick w m = Ok (tt, m') ∧ same_core m m'
      ∧ length (keyboard m') = 16%nat.
Proof.
  intros Hkb [[key val] Hpoll]. unfold poll_and_tick. rewrite Hpoll.
  assert (∃ m1, (match key with
                 | Some k =>
                     if Py.truthy k then
                       kb ← gets keyboard;
                       kb' ← or_raise IndexError (Py.set kb k (uint8 val));
                       modify (with_keyboard kb')
                     else pass
                 | None => pass
                 end) m = Ok (tt, m1) ∧ same_core m m1
                ∧ length (keyboard m1) = 16%nat) as (m1 & Hm1 & Hcore & Hlen).
  { destruct key as [k|]; [|by exists m].
    destruct (Py.truthy k); [|by exists m].
    apply poll_keypress_range in Hpoll as [Hk _].
    unfold mbind, M_bind, gets, or_raise.
    rewrite set_in_range by (rewrite Hkb; lia).
    eexists. split; [reflexivity|]. split; [done|]. simpl.
    by rewrite length_insert. }
  unfold lift at 1. unfold mbind at 1, M_bind at 1.
  erewrite bind_Ok by exact Hm1.
  destruct (timer_due w); simpl.
  - destruct (tick_Ok m1) as (m' & -> & Hcore' & Hkb' & _).
    exists m'. split; [done|]. split; [|congruence].
    unfold same_core in *. destruct Hcore as (?&?&?&?&?&?&?), Hcore' as (?&?&?&?&?&?&?).
    repeat split; congruence.
  - by exists m1.
Qed.

Lemma iteration_instr w m instr name m1 :
  next_instr m instr → run_instr w instr m = Ok (Some name, m1) →
  iteration w m =
    (when (negb (existsb (String.eqb name) pc_modifying)) pc_add2;;
     poll_and_tick w;; mret Continue) m1.
Proof.
  intros Hfetch Hrun. unfold iteration.
  unfold mbind at 1, M_bind at 1, gets at 1.
  erewrite bind_Ok by exact Hfetch.
  erewrite bind_Ok by exact Hrun. done.
Qed.

Lemma iteration_raise w m instr e :
  next_instr m instr → run_instr w instr m = Raise e → iteration w m = Raise e.
Proof.
  intros Hfetch Hrun. unfold iteration.
  unfold mbind at 1, M_bind at 1, gets at 1.
  erewrite bind_Ok by exact Hfetch.
  by erewrite bind_Raise by exact Hrun.
Qed.

Lemma iteration_invalid w m instr m1 :
  next_instr m instr → run_instr w instr m = Ok (None, m1) →
  iteration w m = Ok (InvalidInstruction instr, m1).
Proof.
  intros Hfetch Hrun. unfold iteration.
  unfold mbind at 1, M_bind at 1, gets at 1.
  erewrite bind_Ok by exact Hfetch.
  erewrite bind_Ok by exact Hrun. done.
Qed.

(** An instruction whose name is not in [pc_modifying]: the loop adds 2 to
    the program counter it left. *)
Lemma iteration_advance w m instr name m1 :
  next_instr m instr → run_instr w instr m = Ok (Some name, m1) →
  existsb (String.eqb name) pc_modifying = false →
  length (keyboard m1) = 16%nat → keeps_running w →
  ∃ m', iteration w m = Ok (Continue, m') ∧ same_core (with_PC (PC m1 + 2) m1) m'
      ∧ length (keyboard m') = 16%nat.
Proof.
  intros Hfetch Hrun Hname Hkb Hw.
  rewrite (iteration_instr _ _ _ _ _ Hfetch Hrun), Hname. simpl.
  destruct (poll_and_tick_Ok w (with_PC (PC m1 + 2) m1)) as (m' & Hpt & Hcore & Hkb');
    [done..|].
  exists m'. split; [|done].
  unfold pc_add2.
  unfold mbind at 1, M_bind at 1. simpl.
  erewrite bind_Ok by exact Hpt. done.
Qed.

(** An instruction whose name is in [pc_modifying]: the loop leaves the
    program counter as the instruction set it. *)
Lemma iteration_jump w m instr name m1 :
  next_instr m instr → run_instr w instr m = Ok (Some name, m1) →
  existsb (String.eqb name) pc_modifying = true →
  length (keyboard m1) = 16%nat → keeps_running w →
  ∃ m', iteration w m = Ok (Continue, m') ∧ same_core m1 m'
      ∧ length (keyboard m') = 16%nat.
Proof.
  intros Hfetch Hrun Hname Hkb Hw.
  rewrite (iteration_instr _ _ _ _ _ Hfetch Hrun), Hname. simpl.
  destruct (poll_and_tick_Ok w m1) as (m' & Hpt & Hcore & Hkb'); [done..|].
  exists m'. split; [|done].
  unfold pass. unfold mbind at 1, M_bind at 1. simpl.
  erewrite bind_Ok by exact Hpt. done.
Qed.

Lemma fields instr :
  Z.shiftr instr 12 = instr / 4096
  ∧ Z.land (Z.shiftr instr 8) 0xF = (instr / 256) mod 16
  ∧ Z.land (Z.shiftr instr 4) 0xF = (instr / 16) mod 16
  ∧ Z.land instr 0xF = instr mod 16
  ∧ Z.land instr 0xff = instr mod 256
  ∧ Z.land instr 0xfff = instr mod 4096.
Proof.
  rewrite !Z.shiftr_div_pow2 by lia.
  change 0xF with (Z.ones 4). change 0xff with (Z.ones 8). change 0xfff with (Z.ones 12).
  rewrite !Z.land_ones by lia. done.
Qed.

Lemma word_kk_fields s x kk :
  0 ≤ s < 16 → 0 ≤ x < 16 → 0 ≤ kk < 256 →
  Z.shiftr (word_kk s x kk) 12 = s
  ∧ Z.land (Z.shiftr (word_kk s x kk) 8) 0xF = x
  ∧ Z.land (word_kk s x kk) 0xff = kk.
Proof.
  intros Hs Hx Hkk. destruct (fields (word_kk s x kk)) as (-> & -> & _ & _ & -> & _).
  unfold word_kk. repeat split; Z.div_mod_to_equations; lia.
Qed.

Lemma word_nnn_fields s nnn :
  0 ≤ s < 16 → 0 ≤ nnn < 4096 →
  Z.shiftr (word_nnn s nnn) 12 = s ∧ Z.land (word_nnn s nnn) 0xfff = nnn.
Proof.
  intros Hs Hnnn. destruct (fields (word_nnn s nnn)) as (-> & _ & _ & _ & _ & ->).
  unfold word_nnn. repeat split; Z.div_mod_to_equations; lia.
Qed.

Lemma reg_u8 m x : wf m → 0 ≤ x < 16 → 0 ≤ reg m x < 256.
Proof.
  intros Hwf Hx. unfold reg.
  destruct (lookup_lt_is_Some_2 (V m) (Z.to_nat x)) as [v Hv];
    [rewrite (wf_V m Hwf); lia|].
  rewrite Hv. simpl.
  by apply (Forall_lookup_1 _ _ _ _ (wf_V_u8 m Hwf) Hv).
Qed.

(** ** [JP V0, nnn] *)

Lemma JP_V0_Ok m nnn : length (V m) = 16%nat → JP nnn 1 m = Ok (tt, m).
Proof.
  intros Hlen. unfold JP. simpl.
  unfold mbind at 1, M_bind at 1, gets at 1.
  erewrite bind_Ok by (by apply getV_Ok). done.
Qed.

Lemma run_instr_Bnnn w m nnn :
  0 ≤ nnn < 4096 →
  run_instr w (word_nnn 0xB nnn) m = (JP nnn 1;; mret (Some "JP V0, nnn"%string)) m.
Proof.
  intros Hnnn. unfold run_instr.
  destruct (word_nnn_fields 0xB nnn) as (-> & ->); try lia.
  done.
Qed.

(** C3.  For every operand [nnn] and every machine, executing [Bnnn] leaves
    the whole machine as it was, the program counter included; the
    instruction's name is not in [pc_modifying], so the iteration of the run
    loop that executes it ends with [PC = PC_before + 2], whatever [V[0]]
    holds. *)
Theorem JP_V0_never_assigns_PC w m nnn :
  wf m → 0 ≤ nnn < 4096 → next_instr m (word_nnn 0xB nnn) → keeps_running w →
  run_instr w (word_nnn 0xB nnn) m = Ok (Some "JP V0, nnn"%string, m)
  ∧ ∃ m', iteration w m = Ok (Continue, m')
        ∧ PC m' = PC m + 2
        ∧ same_core (with_PC (PC m + 2) m) m'.
Proof.
  intros Hwf Hnnn Hnext Hw.
  assert (run_instr w (word_nnn 0xB nnn) m = Ok (Some "JP V0, nnn"%string, m)) as Hrun.
  { rewrite run_instr_Bnnn by done.
    erewrite bind_Ok by (apply JP_V0_Ok, Hwf). done. }
  split; [done|].
  destruct (iteration_advance w m _ _ _ Hnext Hrun) as (m' & Hit & Hcore & _);
    [done | apply Hwf | done |].
  exists m'. split; [done|]. split; [|done].
  by destruct Hcore as (_ & _ & _ & _ & -> & _).
Qed.

Lemma JP_V0_never_assigns_PC_witness :
  wf jump_example ∧ 0 ≤ 0x300 < 4096
  ∧ next_instr jump_example (word_nnn 0xB 0x300) ∧ keeps_running quiet
  ∧ run_instr quiet (word_nnn 0xB 0x300) jump_example
    = Ok (Some "JP V0, nnn"%string, jump_example)
  ∧ ∃ m', iteration quiet jump_example = Ok (Continue, m')
        ∧ PC m' = PC jump_example + 2
        ∧ same_core (with_PC (PC jump_example + 2) jump_example) m'.
Proof.
  split; [apply wf_check_sound; vm_compute; reflexivity|].
  split; [lia|].
  split; [vm_compute; reflexivity|].
  split; [eexists; vm_compute; reflexivity|].
  apply (JP_V0_never_assigns_PC quiet jump_example 0x300);
    [apply wf_check_sound; vm_compute; reflexivity | lia
    | vm_compute; reflexivity | eexists; vm_compute; reflexivity].
Defined.

(** ** Conditional skips *)

Lemma skip_run w m i :
  wf m → skip_operands i → key_operand_valid i m →
  ∃ name,
    run_instr w (skip_word i) m
    = Ok (Some name, if skip_condition i m then with_PC (PC m + 2) m else m)
    ∧ existsb (String.eqb name) pc_modifying = false.
Proof.
  intros Hwf Hops Hkey. pose proof (wf_V m Hwf) as Hlen.
  destruct i as [x kk|x kk|x y|x y|x|x]; simpl in Hops, Hkey; simpl skip_word;
    unfold run_instr.
  - destruct (word_kk_fields 3 x kk) as (-> & -> & ->); try lia. simpl.
    exists "SE Vx, kk"%string. split; [|reflexivity].
    unfold SE. simpl.
    erewrite bind_Ok; [done|]. erewrite bind_Ok by (apply getV_Ok; [done|lia]).
    by destruct (reg m x =? kk).
  - destruct (word_kk_fields 4 x kk) as (-> & -> & ->); try lia. simpl.
    exists "SNE Vx, kk"%string. split; [|reflexivity].
    unfold SNE. simpl.
    erewrite bind_Ok; [done|]. erewrite bind_Ok by (apply getV_Ok; [done|lia]).
    by destruct (reg m x =? kk).
  - destruct (word_fields 5 x y 0) as (-> & -> & -> & _); try lia. simpl.
    exists "SE Vx, Vy"%string. split; [|reflexivity].
    unfold SE. simpl.
    erewrite bind_Ok; [done|]. erewrite bind_Ok by (apply getV_Ok; [done|lia]).
    erewrite bind_Ok by (apply getV_Ok; [done|lia]).
    by destruct (reg m x =? reg m y).
  - destruct (word_fields 9 x y 0) as (-> & -> & -> & _); try lia. simpl.
    exists "SNE Vx, Vy"%string. split; [|reflexivity].
    unfold SNE. simpl.
    erewrite bind_Ok; [done|]. erewrite bind_Ok by (apply getV_Ok; [done|lia]).
    erewrite bind_Ok by (apply getV_Ok; [done|lia]).
    by destruct (reg m x =? reg m y).
  - destruct (word_kk_fields 0xE x 0x9E) as (-> & -> & ->); try lia. simpl.
    exists "SKP Vx"%string. split; [|reflexivity].
    unfold SKP.
    erewrite bind_Ok; [done|]. erewrite bind_Ok by (apply getV_Ok; [done|lia]).
    unfold mbind at 1, M_bind at 1, gets at 1, or_raise.
    pose proof (reg_u8 m x Hwf Hops).
    rewrite (get_in_range _ _ 0) by (rewrite (wf_keyboard m Hwf); lia).
    unfold key_down, mbind, M_bind, mret, M_ret.
    by destruct (Py.truthy _).
  - destruct (word_kk_fields 0xE x 0xA1) as (-> & -> & ->); try lia. simpl.
    exists "SKNP Vx"%string. split; [|reflexivity].
    unfold SKNP.
    erewrite bind_Ok; [done|]. erewrite bind_Ok by (apply getV_Ok; [done|lia]).
    unfold mbind at 1, M_bind at 1, gets at 1, or_raise.
    pose proof (reg_u8 m x Hwf Hops).
    rewrite (get_in_range _ _ 0) by (rewrite (wf_keyboard m Hwf); lia).
    unfold key_down, mbind, M_bind, mret, M_ret.
    by destruct (Py.truthy _).
Qed.

(** C4, as amended.  For each of the six conditional skips and every
    machine, provided that for [SKP Vx] and [SKNP Vx] the register [V[x]]
    holds a key index (below 16), the iteration of the run loop that
    executes the instruction advances the program counter by exactly 4 when
    the skip condition holds and by exactly 2 when it does not, and it does
    so in two layers: the instruction itself adds 2 to the program counter
    when the condition holds and changes nothing otherwise, and the loop,
    for which a skip is not one of the [pc_modifying] instructions, adds 2
    to what the instruction left in either case. *)
Theorem skip_advances_PC w m i :
  wf m → skip_operands i → next_instr m (skip_word i) → keeps_running w →
  key_operand_valid i m →
  skip_stated w m i.
Proof.
  intros Hwf Hops Hnext Hw Hkey.
  destruct (skip_run w m i Hwf Hops Hkey) as (name & Hrun & Hname).
  destruct (iteration_advance w m _ _ _ Hnext Hrun Hname) as (m' & Hit & Hcore & _);
    [destruct (skip_condition i m); apply Hwf | done |].
  exists name, (if skip_condition i m then with_PC (PC m + 2) m else m), m'.
  do 5 (split; [done|]).
  destruct Hcore as (_ & _ & _ & _ & -> & _).
  destruct (skip_condition i m); simpl; lia.
Qed.

Lemma skip_advances_PC_witness :
  wf skip_example ∧ skip_operands (SE_Vx_kk 0 5)
  ∧ next_instr skip_example (skip_word (SE_Vx_kk 0 5)) ∧ keeps_running quiet
  ∧ key_operand_valid (SE_Vx_kk 0 5) skip_example
  ∧ skip_stated quiet skip_example (SE_Vx_kk 0 5).
Proof.
  split; [apply wf_check_sound; vm_compute; reflexivity|].
  split; [simpl; lia|].
  split; [vm_compute; reflexivity|].
  split; [eexists; vm_compute; reflexivity|].
  split; [exact Logic.I|].
  apply (skip_advances_PC quiet skip_example (SE_Vx_kk 0 5));
    [apply wf_check_sound; vm_compute; reflexivity | simpl; lia
    | vm_compute; reflexivity | eexists; vm_compute; reflexivity | exact Logic.I].
Defined.

(** [SKP V0] with [V0 = 0x10]: the machine is well formed, the instruction
    is the one fetched, the poll returns, and the instruction, and with it
    the iteration, dies of an [IndexError] on the keyboard vector instead
    of advancing the program counter. *)
Lemma SKP_beyond_keyboard :
  wf bad_key_example ∧ skip_operands (SKP_Vx 0)
  ∧ next_instr bad_key_example (skip_word (SKP_Vx 0)) ∧ keeps_running quiet
  ∧ run_instr quiet (skip_word (SKP_Vx 0)) bad_key_example = Raise IndexError
  ∧ iteration quiet bad_key_example = Raise IndexError
  ∧ ¬ skip_stated quiet bad_key_example (SKP_Vx 0).
Proof.
  split; [apply wf_check_sound; vm_compute; reflexivity|].
  split; [simpl; lia|].
  split; [vm_compute; reflexivity|].
  split; [eexists; vm_compute; reflexivity|].
  split; [vm_compute; reflexivity|].
  split; [vm_compute; reflexivity|].
  intros (name & m1 & m' & _ & _ & _ & Hit & _). vm_compute in Hit. discriminate.
Qed.

(** ** [CALL] and [RET] *)

Section valid_index.
Context {A : Type}.
Implicit Types (l : list A) (i : Z).

Lemma index_valid (len : nat) i :
  - Z.of_nat len ≤ i < Z.of_nat len → ∃ k, Py.index len i = Some k ∧ (k < len)%nat.
Proof.
  intros Hi. destruct (decide (0 ≤ i)).
  - exists (Z.to_nat i). rewrite index_in_range by lia. split; [done | lia].
  - exists (Z.to_nat (Z.of_nat len + i)). rewrite index_negative by lia.
    split; [done | lia].
Qed.

Lemma set_valid l i v :
  - Z.of_nat (length l) ≤ i < Z.of_nat (length l) →
  ∃ l', Py.set l i v = Some l' ∧ Py.get l' i = Some v ∧ length l' = length l.
Proof.
  intros Hi. destruct (index_valid (length l) i Hi) as (k & Hk & Hlt).
  exists (<[k := v]> l). unfold Py.set, Py.get.
  rewrite length_insert, Hk. simpl.
  rewrite list_lookup_insert_eq by done. done.
Qed.

Lemma get_Some_valid l i v :
  Py.get l i = Some v → - Z.of_nat (length l) ≤ i < Z.of_nat (length l).
Proof.
  unfold Py.get. intros H.
  destruct (decide (- Z.of_nat (length l) ≤ i < Z.of_nat (length l))); [done|].
  rewrite index_out_of_range in H by lia. done.
Qed.
End valid_index.

Lemma push_Ok m v :
  - 16 ≤ SP m + 1 < 16 → length (stack m) = 16%nat →
  ∃ s', push v m = Ok (tt, with_stack s' (with_SP (SP m + 1) m))
      ∧ Py.get s' (SP m + 1) = Some (uint16 v) ∧ length s' = 16%nat.
Proof.
  intros Hsp Hlen.
  destruct (set_valid (stack m) (SP m + 1) (uint16 v)) as (s' & Hset & Hget & Hlen');
    [rewrite Hlen; lia|].
  exists s'. split; [|split; [done | congruence]].
  unfold push, mbind, M_bind, gets, modify, or_raise. simpl. by rewrite Hset.
Qed.

Lemma push_overflow m v :
  SP m = 15 → length (stack m) = 16%nat → push v m = Raise IndexError.
Proof.
  intros Hsp Hlen.
  unfold push, mbind, M_bind, gets, modify, or_raise, Py.set. simpl.
  rewrite index_out_of_range by (rewrite Hlen; lia). done.
Qed.

Lemma pop_Ok m v :
  Py.get (stack m) (SP m) = Some v → pop m = Ok (v, with_SP (SP m - 1) m).
Proof.
  intros Hget. unfold pop, mbind, M_bind, gets, modify, or_raise. by rewrite Hget.
Qed.

Lemma run_instr_2nnn w m nnn :
  0 ≤ nnn < 4096 →
  run_instr w (word_nnn 2 nnn) m = (CALL nnn;; mret (Some "CALL nnn"%string)) m.
Proof.
  intros Hnnn. unfold run_instr.
  destruct (word_nnn_fields 2 nnn) as (-> & ->); try lia.
  done.
Qed.

Lemma run_instr_00EE w m : run_instr w 0x00EE m = (RET;; mret (Some "RET"%string)) m.
Proof. done. Qed.

Lemma getRAM_inv m a v m' :
  getRAM a m = Ok (v, m') → m' = m ∧ Py.get (RAM m) a = Some v.
Proof.
  unfold getRAM, mbind, M_bind, gets, or_raise.
  destruct (Py.get (RAM m) a); [|done]. by intros [= <- <-].
Qed.

Lemma fetch_inv m a instr m' :
  fetch_instr a m = Ok (instr, m') →
  m' = m ∧ ∃ hi lo, Py.get (RAM m) a = Some hi ∧ Py.get (RAM m) (a + 1) = Some lo
                  ∧ instr = Z.shiftl hi 8 + lo.
Proof.
  unfold fetch_instr. intros Hfetch.
  apply bind_inv in Hfetch as (hi & m1 & Hhi & Hfetch).
  apply getRAM_inv in Hhi as [-> Hhi].
  apply bind_inv in Hfetch as (lo & m2 & Hlo & Hret).
  apply getRAM_inv in Hlo as [-> Hlo].
  injection Hret as <- <-. eauto 6.
Qed.

Lemma fetch_range m a instr m' :
  length (RAM m) = 4096%nat → fetch_instr a m = Ok (instr, m') → a + 1 < 4096.
Proof.
  intros Hlen Hfetch. apply fetch_inv in Hfetch as (_ & hi & lo & _ & Hlo & _).
  apply get_Some_valid in Hlo. rewrite Hlen in Hlo. lia.
Qed.

Lemma fetch_same_RAM m m' a instr :
  RAM m' = RAM m → fetch_instr a m = Ok (instr, m) → fetch_instr a m' = Ok (instr, m').
Proof.
  intros HRAM Hfetch. apply fetch_inv in Hfetch as (_ & hi & lo & Hhi & Hlo & ->).
  unfold fetch_instr, getRAM, mbind, M_bind, gets, or_raise.
  rewrite HRAM, Hhi. simpl. rewrite HRAM, Hlo. done.
Qed.

Lemma CALL_Ok m nnn :
  wf m → SP m < 15 →
  ∃ s', CALL nnn m = Ok (tt, with_PC nnn (with_stack s' (with_SP (SP m + 1) m)))
      ∧ Py.get s' (SP m + 1) = Some (uint16 (PC m + 2)).
Proof.
  intros Hwf Hsp. pose proof (wf_SP m Hwf).
  destruct (push_Ok m (PC m + 2)) as (s' & Hpush & Hget & _); [lia | apply Hwf |].
  exists s'. split; [|done].
  unfold CALL. unfold mbind at 1, M_bind at 1, gets at 1.
  erewrite bind_Ok by exact Hpush. done.
Qed.

Lemma RET_Ok m v :
  Py.get (stack m) (SP m) = Some v → RET m = Ok (tt, with_PC v (with_SP (SP m - 1) m)).
Proof.
  intros Hget. unfold RET. erewrite bind_Ok by (by apply pop_Ok). done.
Qed.

(** C5.  For every address [nnn] and every machine whose call stack is not
    full, the iteration that executes [CALL nnn] pushes [PC + 2] and leaves
    [PC = nnn]; when the instruction at [nnn] is [RET], the next iteration
    pops that address, so that [PC] ends at [PC_before + 2], [PC_before]
    being the address of the [CALL], and the stack pointer is back where it
    was. *)
Theorem CALL_then_RET w1 w2 m nnn :
  wf m → SP m < 15 → 0 ≤ nnn < 4096 →
  next_instr m (word_nnn 2 nnn) → fetch_instr nnn m = Ok (0x00EE, m) →
  keeps_running w1 → keeps_running w2 →
  ∃ m1 m2,
    iteration w1 m = Ok (Continue, m1)
    ∧ PC m1 = nnn ∧ SP m1 = SP m + 1
    ∧ Py.get (stack m1) (SP m1) = Some (PC m + 2)
    ∧ iteration w2 m1 = Ok (Continue, m2)
    ∧ PC m2 = PC m + 2 ∧ SP m2 = SP m.
Proof.
  intros Hwf Hsp Hnnn Hnext Hret Hw1 Hw2.
  pose proof (wf_PC m Hwf) as Hpc.
  pose proof (fetch_range m _ _ _ (wf_RAM m Hwf) Hnext) as Hpc'.
  destruct (CALL_Ok m nnn Hwf Hsp) as (s' & Hcall & Htop).
  unfold uint16 in Htop. rewrite Z.mod_small in Htop by lia.
  assert (run_instr w1 (word_nnn 2 nnn) m
          = Ok (Some "CALL nnn"%string,
                with_PC nnn (with_stack s' (with_SP (SP m + 1) m)))) as Hrun.
  { rewrite run_instr_2nnn by done. erewrite bind_Ok by exact Hcall. done. }
  destruct (iteration_jump w1 m _ _ _ Hnext Hrun) as (m1 & Hit1 & Hcore1 & Hkb1);
    [done | apply Hwf | done |].
  destruct Hcore1 as (HRAM1 & _ & Hstack1 & _ & HPC1 & HSP1 & _). simpl in *.
  assert (Py.get (stack m1) (SP m1) = Some (PC m + 2)) as Htop1 by congruence.
  assert (next_instr m1 0x00EE) as Hnext1.
  { unfold next_instr. rewrite HPC1. by apply (fetch_same_RAM m). }
  assert (run_instr w2 0x00EE m1
          = Ok (Some "RET"%string, with_PC (PC m + 2) (with_SP (SP m1 - 1) m1))) as Hrun1.
  { rewrite run_instr_00EE. erewrite bind_Ok by (by apply RET_Ok). done. }
  destruct (iteration_jump w2 m1 _ _ _ Hnext1 Hrun1) as (m2 & Hit2 & Hcore2 & _);
    [done..|].
  destruct Hcore2 as (_ & _ & _ & _ & HPC2 & HSP2 & _). simpl in *.
  exists m1, m2. repeat split; try done; lia.
Qed.

Lemma CALL_then_RET_witness :
  wf call_example ∧ SP call_example < 15 ∧ 0 ≤ 0x204 < 4096
  ∧ next_instr call_example (word_nnn 2 0x204)
  ∧ fetch_instr 0x204 call_example = Ok (0x00EE, call_example)
  ∧ keeps_running quiet ∧ keeps_running quiet
  ∧ ∃ m1 m2,
      iteration quiet call_example = Ok (Continue, m1)
      ∧ PC m1 = 0x204 ∧ SP m1 = SP call_example + 1
      ∧ Py.get (stack m1) (SP m1) = Some (PC call_example + 2)
      ∧ iteration quiet m1 = Ok (Continue, m2)
      ∧ PC m2 = PC call_example + 2 ∧ SP m2 = SP call_example.
Proof.
  split; [apply wf_check_sound; vm_compute; reflexivity|].
  split; [vm_compute; reflexivity|].
  split; [lia|].
  split; [vm_compute; reflexivity|].
  split; [vm_compute; reflexivity|].
  split; [eexists; vm_compute; reflexivity|].
  split; [eexists; vm_compute; reflexivity|].
  apply (CALL_then_RET quiet quiet call_example 0x204);
    [apply wf_check_sound; vm_compute; reflexivity | vm_compute; reflexivity | lia
    | vm_compute; reflexivity | vm_compute; reflexivity
    | eexists; vm_compute; reflexivity | eexists; vm_compute; reflexivity].
Defined.

(** C7, as amended.  [CALL] when sixteen return addresses are stacked is
    fatal: the store beyond the stack array raises [IndexError], which
    nothing catches.  [RET] on an empty stack is not detected: index -1 reads
    the last cell of the stack array into the program counter, and the stack
    pointer goes on to -2. *)
Theorem stack_overflow_raises_underflow_wraps :
  (∀ w m nnn, wf m → 0 ≤ nnn < 4096 → SP m = 15 →
     next_instr m (word_nnn 2 nnn) → iteration w m = Raise IndexError)
  ∧ (∀ w m, wf m → SP m = -1 → next_instr m 0x00EE → keeps_running w →
       ∃ m', iteration w m = Ok (Continue, m')
           ∧ PC m' = default 0 (stack m !! 15%nat) ∧ SP m' = -2).
Proof.
  split.
  - intros w m nnn Hwf Hnnn Hsp Hnext.
    apply (iteration_raise _ _ _ _ Hnext).
    rewrite run_instr_2nnn by done.
    apply bind_Raise. unfold CALL.
    unfold mbind at 1, M_bind at 1, gets at 1.
    apply bind_Raise, push_overflow; [done | apply Hwf].
  - intros w m Hwf Hsp Hnext Hw.
    assert (Py.get (stack m) (SP m) = Some (default 0 (stack m !! 15%nat))) as Hget.
    { unfold Py.get. rewrite index_negative by (rewrite (wf_stack m Hwf); lia).
      rewrite (wf_stack m Hwf), Hsp.
      change (Z.to_nat (Z.of_nat 16 + -1)) with 15%nat. simpl.
      destruct (lookup_lt_is_Some_2 (stack m) 15) as [v ->];
        [rewrite (wf_stack m Hwf); lia | done]. }
    assert (run_instr w 0x00EE m
            = Ok (Some "RET"%string,
                  with_PC (default 0 (stack m !! 15%nat)) (with_SP (SP m - 1) m)))
      as Hrun.
    { rewrite run_instr_00EE. erewrite bind_Ok by (by apply RET_Ok). done. }
    destruct (iteration_jump w m _ _ _ Hnext Hrun) as (m' & Hit & Hcore & _);
      [done | apply Hwf | done |].
    destruct Hcore as (_ & _ & _ & _ & HPC & HSP & _). simpl in *.
    exists m'. repeat split; [done.. | lia].
Qed.

Lemma stack_overflow_raises_underflow_wraps_witness :
  (wf full_stack_example ∧ 0 ≤ 0x200 < 4096 ∧ SP full_stack_example = 15
   ∧ next_instr full_stack_example (word_nnn 2 0x200)
   ∧ iteration quiet full_stack_example = Raise IndexError)
  ∧ (wf empty_stack_example ∧ SP empty_stack_example = -1
     ∧ next_instr empty_stack_example 0x00EE ∧ keeps_running quiet
     ∧ ∃ m', iteration quiet empty_stack_example = Ok (Continue, m')
           ∧ PC m' = default 0 (stack empty_stack_example !! 15%nat) ∧ SP m' = -2).
Proof.
  split.
  - split; [apply wf_check_sound; vm_compute; reflexivity|].
    split; [lia|].
    split; [vm_compute; reflexivity|].
    split; [vm_compute; reflexivity|].
    apply (proj1 stack_overflow_raises_underflow_wraps quiet full_stack_example 0x200);
      [apply wf_check_sound; vm_compute; reflexivity | lia
      | vm_compute; reflexivity | vm_compute; reflexivity].
  - split; [apply wf_check_sound; vm_compute; reflexivity|].
    split; [vm_compute; reflexivity|].
    split; [vm_compute; reflexivity|].
    split; [eexists; vm_compute; reflexivity|].
    apply (proj2 stack_overflow_raises_underflow_wraps quiet empty_stack_example);
      [apply wf_check_sound; vm_compute; reflexivity | vm_compute; reflexivity
      | vm_compute; reflexivity | eexists; vm_compute; reflexivity].
Defined.

(** [RET] as the first instruction of a program: the stack is empty, and
    the iteration completes. *)
Lemma RET_on_empty_stack_goes_on :
  wf empty_stack_example ∧ SP empty_stack_example = -1
  ∧ next_instr empty_stack_example 0x00EE ∧ keeps_running quiet
  ∧ ¬ faults quiet empty_stack_example.
Proof.
  split; [apply wf_check_sound; vm_compute; reflexivity|].
  split; [vm_compute; reflexivity|].
  split; [vm_compute; reflexivity|].
  split; [eexists; vm_compute; reflexivity|].
  intros [e Hit]. vm_compute in Hit. discriminate.
Qed.

(** ** Words that the decoder rejects *)

(** One test of the decision tree: in the branch where it succeeds the
    field is known and the remaining tests on it compute. *)
Ltac case_eqb :=
  match goal with
  | |- context [Z.eqb ?a ?b] =>
      destruct (Z.eqb_spec a b); [subst; simpl | simpl]
  end.

Ltac decode_fields instr :=
  generalize (Z.shiftr instr 12) (Z.land (Z.shiftr instr 8) 15)
    (Z.land (Z.shiftr instr 4) 15) (Z.land instr 15) (Z.land instr 255)
    (Z.land instr 4095);
  intros ?s ?x ?y ?n ?kk ?nnn; cbv zeta.

Lemma decodes_false w m instr :
  decodes instr = false → run_instr w instr m = Ok (None, m).
Proof.
  unfold decodes, run_instr. decode_fields instr.
  repeat (case_eqb; try done).
Qed.

Lemma decodes_true w m instr m' :
  decodes instr = true → run_instr w instr m ≠ Ok (None, m').
Proof.
  unfold decodes, run_instr. decode_fields instr.
  repeat (case_eqb; try done);
    intros _ H; apply bind_inv in H as (? & ? & _ & H); done.
Qed.

(** ** Invariants

    Every instruction, and the rest of the loop body, hands back a
    well-formed machine when it hands one back at all. *)

Lemma wf_with_V m l :
  wf m → length l = 16%nat → Forall (λ b, 0 ≤ b < 256) l → wf (with_V l m).
Proof. intros []. by split. Qed.
Lemma wf_with_RAM m l :
  wf m → length l = 4096%nat → Forall (λ b, 0 ≤ b < 256) l → wf (with_RAM l m).
Proof. intros []. by split. Qed.
Lemma wf_with_stack m l :
  wf m → length l = 16%nat → Forall (λ a, 0 ≤ a < 65536) l → wf (with_stack l m).
Proof. intros []. by split. Qed.
Lemma wf_with_I m i : wf m → 0 ≤ i < 4096 → wf (with_I i m).
Proof. intros []. by split. Qed.
Lemma wf_with_PC m p : wf m → 0 ≤ p → wf (with_PC p m).
Proof. intros []. by split. Qed.
Lemma wf_with_SP m s : wf m → -17 ≤ s ≤ 15 → wf (with_SP s m).
Proof. intros []. by split. Qed.
Lemma wf_with_DT m d : wf m → 0 ≤ d < 256 → wf (with_DT d m).
Proof. intros []. by split. Qed.
Lemma wf_with_ST m d : wf m → 0 ≤ d < 256 → wf (with_ST d m).
Proof. intros []. by split. Qed.
Lemma wf_with_keyboard m l : wf m → length l = 16%nat → wf (with_keyboard l m).
Proof. intros []. by split. Qed.
Lemma wf_with_screen m s :
  wf m → length s = 64%nat → Forall (λ col : list Z, length col = 32%nat) s →
  wf (with_screen s m).
Proof. intros []. by split. Qed.

Lemma uint8_range v : 0 ≤ uint8 v < 256.
Proof. unfold uint8. apply Z.mod_pos_bound. lia. Qed.
Lemma uint16_range v : 0 ≤ uint16 v < 65536.
Proof. unfold uint16. apply Z.mod_pos_bound. lia. Qed.

Section py.
Context {A : Type}.
Implicit Types (l : list A) (P : A → Prop).

Lemma set_Forall P l i v l' :
  Forall P l → P v → Py.set l i v = Some l' → Forall P l'.
Proof.
  unfold Py.set. intros Hl Hv. destruct (Py.index _ _); simpl; [|done].
  intros [= <-]. by apply Forall_insert.
Qed.

Lemma get_Forall P l i v : Forall P l → Py.get l i = Some v → P v.
Proof.
  unfold Py.get. intros Hl. destruct (Py.index _ _); simpl; [|done].
  intros Hv. by eapply Forall_lookup_1.
Qed.

Lemma clamp_le (len : nat) i : (Py.clamp len i ≤ len)%nat.
Proof. unfold Py.clamp. destruct (Z.ltb_spec i 0); lia. Qed.

Lemma set_slice_length l a b vals l' :
  Py.set_slice l a b vals = Some l' → length l' = length l.
Proof.
  unfold Py.set_slice, Py.slice_len.
  pose proof (clamp_le (length l) a). pose proof (clamp_le (length l) b).
  destruct (Nat.eqb_spec (length vals) (Py.clamp (length l) b - Py.clamp (length l) a)).
  - intros [= <-]. rewrite !length_app, length_take, length_drop. lia.
  - destruct vals as [|v [|]]; try done.
    intros [= <-]. rewrite !length_app, length_take, length_replicate, length_drop. lia.
Qed.

Lemma set_slice_Forall P l a b vals l' :
  Forall P l → Forall P vals → Py.set_slice l a b vals = Some l' → Forall P l'.
Proof.
  unfold Py.set_slice. intros Hl Hvals.
  destruct (_ =? _)%nat.
  - intros [= <-]. rewrite !Forall_app. split_and!; [by apply Forall_take | done | by apply Forall_drop].
  - destruct vals as [|v [|]]; try done.
    intros [= <-]. rewrite !Forall_app. split_and!; [by apply Forall_take | | by apply Forall_drop].
    apply Forall_replicate. by inversion Hvals.
Qed.
End py.

Lemma Forall_uint8 (l : list Z) : Forall (λ b, 0 ≤ b < 256) (uint8 <$> l).
Proof. apply Forall_fmap, Forall_true. intros v. apply uint8_range. Qed.

(** Inverting a run that returns: the steps are unfolded and every test
    and lookup on the way is split into its cases. *)
Ltac unfold_M H :=
  cbv beta delta [mbind M_bind mret M_ret gets modify pass when or_raise raise
                  lift hang sys_exit getV setV getRAM pc_add2] in H.

Ltac inv_M H := unfold_M H; repeat case_match; simplify_eq.

Lemma getV_inv m x v m' :
  getV x m = Ok (v, m') → m' = m ∧ Py.get (V m) x = Some v.
Proof. intros H. inv_M H. by split. Qed.

Lemma setV_inv m x v u m' :
  setV x v m = Ok (u, m') →
  ∃ l, Py.set (V m) x (uint8 v) = Some l ∧ m' = with_V l m.
Proof. intros H. inv_M H. eauto. Qed.

Lemma setV_wf m x v u m' : wf m → setV x v m = Ok (u, m') → wf m'.
Proof.
  intros Hwf H. apply setV_inv in H as (l & Hset & ->).
  apply wf_with_V; [done | |].
  - rewrite (set_length _ _ _ _ Hset). apply (wf_V m Hwf).
  - eapply set_Forall; [apply (wf_V_u8 m Hwf) | apply uint8_range | done].
Qed.

Lemma getV_byte m x v m' : wf m → getV x m = Ok (v, m') → m' = m ∧ 0 ≤ v < 256.
Proof.
  intros Hwf H. apply getV_inv in H as [-> Hget]. split; [done|].
  by apply (get_Forall _ _ _ _ (wf_V_u8 m Hwf) Hget).
Qed.


Section py_transfer.
Context {A : Type}.
Implicit Types (l : list A) (P : A → Prop).

Lemma set_facts l i v l' :
  Py.set l i v = Some l' →
  length l' = length l ∧ (∀ P, Forall P l → P v → Forall P l')
  ∧ - Z.of_nat (length l) ≤ i < Z.of_nat (length l).
Proof.
  intros H. split; [|split].
  - by eapply set_length.
  - intros P ??. eapply set_Forall; [| |exact H]; done.
  - unfold Py.set in H.
    destruct (decide (- Z.of_nat (length l) ≤ i < Z.of_nat (length l))); [done|].
    rewrite index_out_of_range in H by lia. simpl in H. done.
Qed.

Lemma get_facts l i v :
  Py.get l i = Some v →
  (∀ P, Forall P l → P v) ∧ - Z.of_nat (length l) ≤ i < Z.of_nat (length l).
Proof.
  intros H. split.
  - intros P ?. by eapply get_Forall.
  - by eapply get_Some_valid.
Qed.

Lemma set_slice_facts l a b vals l' :
  Py.set_slice l a b vals = Some l' →
  length l' = length l ∧ (∀ P, Forall P l → Forall P vals → Forall P l').
Proof.
  intros H. split.
  - by eapply set_slice_length.
  - intros P ??. eapply set_slice_Forall; [| |exact H]; done.
Qed.
End py_transfer.

(** Facts about the values read and the arrays written, from the equations
    that an inverted run leaves. *)
Ltac py_facts :=
  repeat match goal with
  | H : Py.get _ _ = Some _ |- _ => apply get_facts in H as [? ?]
  | H : Py.set _ _ _ = Some _ |- _ => apply set_facts in H as (? & ? & ?)
  | H : Py.set_slice _ _ _ _ = Some _ |- _ => apply set_slice_facts in H as [? ?]
  end.

Ltac solve_Forall :=
  repeat match goal with
  | |- Forall _ (uint8 <$> _) => apply Forall_uint8
  | |- Forall _ ?l => assumption
  | H : ∀ P, Forall P _ → P _ → Forall P ?l |- Forall _ ?l => apply H
  | H : ∀ P, Forall P _ → Forall P _ → Forall P ?l |- Forall _ ?l => apply H
  | |- 0 ≤ uint8 _ < 256 => apply uint8_range
  | |- 0 ≤ uint16 _ < 65536 => apply uint16_range
  end.

Ltac byte_facts :=
  repeat match goal with
  | H : ∀ P : Z → Prop, Forall P ?l → P ?v, HF : Forall (λ b, 0 ≤ b < ?k) ?l |- _ =>
      lazymatch goal with
      | _ : 0 ≤ v < k |- _ => fail
      | _ => pose proof (H _ HF : 0 ≤ v < k)
      end
  end.

Ltac solve_wf Hwf :=
  simpl in *; py_facts; destruct Hwf; simpl in *; byte_facts;
  split; simpl; try done; try lia; try congruence; solve_Forall.

Lemma land_fff_range v : 0 ≤ Z.land v 0xfff < 4096.
Proof.
  change 0xfff with (Z.ones 12). rewrite Z.land_ones by lia.
  apply Z.mod_pos_bound. lia.
Qed.

Lemma ADD_wf args mode m u m' : wf m → ADD args mode m = Ok (u, m') → wf m'.
Proof.
  intros Hwf H. unfold ADD in H. inv_M H; solve_wf Hwf. apply land_fff_range.
Qed.

Lemma SUB_wf x y m u m' : wf m → SUB x y m = Ok (u, m') → wf m'.
Proof. intros Hwf H. unfold SUB in H. inv_M H; solve_wf Hwf. Qed.

Lemma OR_wf x y m u m' : wf m → OR x y m = Ok (u, m') → wf m'.
Proof. intros Hwf H. unfold OR in H. inv_M H; solve_wf Hwf. Qed.

Lemma AND_wf x y m u m' : wf m → AND x y m = Ok (u, m') → wf m'.
Proof. intros Hwf H. unfold AND in H. inv_M H; solve_wf Hwf. Qed.

Lemma XOR_wf x y m u m' : wf m → XOR x y m = Ok (u, m') → wf m'.
Proof. intros Hwf H. unfold XOR in H. inv_M H; solve_wf Hwf. Qed.

Lemma SHR_wf x m u m' : wf m → SHR x m = Ok (u, m') → wf m'.
Proof. intros Hwf H. unfold SHR in H. inv_M H; solve_wf Hwf. Qed.

Lemma SHL_wf x m u m' : wf m → SHL x m = Ok (u, m') → wf m'.
Proof. intros Hwf H. unfold SHL in H. inv_M H; solve_wf Hwf. Qed.

Lemma RND_wf w x kk m u m' : wf m → RND w x kk m = Ok (u, m') → wf m'.
Proof. intros Hwf H. unfold RND in H. inv_M H; solve_wf Hwf. Qed.

Lemma SE_wf args mode m u m' : wf m → SE args mode m = Ok (u, m') → wf m'.
Proof. intros Hwf H. unfold SE in H. inv_M H; solve_wf Hwf. Qed.

Lemma SNE_wf args mode m u m' : wf m → SNE args mode m = Ok (u, m') → wf m'.
Proof. intros Hwf H. unfold SNE in H. inv_M H; solve_wf Hwf. Qed.

Lemma SKP_wf x m u m' : wf m → SKP x m = Ok (u, m') → wf m'.
Proof. intros Hwf H. unfold SKP in H. inv_M H; solve_wf Hwf. Qed.

Lemma SKNP_wf x m u m' : wf m → SKNP x m = Ok (u, m') → wf m'.
Proof. intros Hwf H. unfold SKNP in H. inv_M H; solve_wf Hwf. Qed.

Lemma JP_wf nnn mode m u m' :
  0 ≤ nnn → wf m → JP nnn mode m = Ok (u, m') → wf m'.
Proof. intros Hnnn Hwf H. unfold JP in H. inv_M H; solve_wf Hwf. Qed.

Lemma CALL_wf nnn m u m' :
  0 ≤ nnn → wf m → CALL nnn m = Ok (u, m') → wf m'.
Proof. intros Hnnn Hwf H. unfold CALL, push in H. inv_M H; solve_wf Hwf. Qed.

Lemma RET_wf m u m' : wf m → RET m = Ok (u, m') → wf m'.
Proof. intros Hwf H. unfold RET, pop in H. inv_M H; solve_wf Hwf. Qed.

Lemma CLS_wf m u m' : wf m → CLS m = Ok (u, m') → wf m'.
Proof.
  intros Hwf H. unfold CLS in H. inv_M H. solve_wf Hwf.
  - by rewrite length_fmap.
  - apply Forall_fmap. eapply Forall_impl; [done|].
    intros col Hcol. simpl. by rewrite length_fmap.
Qed.

Lemma wait_key_wf polls x m u m' : wf m → wait_key polls x m = Ok (u, m') → wf m'.
Proof.
  intros Hwf. induction polls as [|events polls IH]; simpl; [done|].
  intros H. apply bind_inv in H as ([key val] & m1 & Hpoll & H).
  unfold lift in Hpoll. destruct (poll_keypress events); simplify_eq.
  destruct key as [k|]; [|by apply IH].
  destruct (Py.truthy k && Py.truthy val); [|by apply IH].
  by eapply setV_wf.
Qed.

Lemma LD_wf w args mode m u m' :
  (mode = 2 → ∀ nnn, args = [nnn] → 0 ≤ nnn < 4096) →
  wf m → LD w args mode m = Ok (u, m') → wf m'.
Proof.
  intros Hnnn Hwf H. unfold LD in H.
  destruct (mode =? 4) eqn:Hmode.
  - apply Z.eqb_eq in Hmode as ->. simpl in H.
    destruct args as [|x [|]]; try done. by eapply wait_key_wf.
  - inv_M H; try solve_wf Hwf.
    + apply Hnnn; [lia | done].
    + unfold digit_loc. lia.
    + repeat constructor; apply uint8_range.
Qed.

Lemma xor_view_shape scr x0 y0 bits :
  length (xor_view scr x0 y0 bits) = length scr
  ∧ (Forall (λ col : list Z, length col = 32%nat) scr →
     Forall (λ col : list Z, length col = 32%nat) (xor_view scr x0 y0 bits)).
Proof.
  unfold xor_view. split; [by rewrite length_imap|].
  rewrite !Forall_lookup. intros Hcols cx col Hcol.
  rewrite list_lookup_imap in Hcol.
  destruct (scr !! cx) as [col0|] eqn:Hcol0; simplify_eq/=.
  rewrite length_imap. by eapply Hcols.
Qed.

Lemma DRW_wf x y n m u m' : wf m → DRW x y n m = Ok (u, m') → wf m'.
Proof.
  intros Hwf H. unfold DRW in H.
  do 8 (apply bind_inv in H as (? & ? & ?Hstep & H)).
  eapply setV_wf; [|exact H].
  apply getV_inv in Hstep1 as [-> _]. apply getV_inv in Hstep2 as [-> _].
  unfold_M Hstep. unfold_M Hstep0. unfold_M Hstep3. unfold_M Hstep4.
  unfold_M Hstep5. unfold_M Hstep6.
  repeat case_match; simplify_eq.
  match goal with
  | |- wf (with_screen (xor_view ?scr ?x0 ?y0 ?bits) _) =>
      destruct (xor_view_shape scr x0 y0 bits) as [Hlen Hcols]
  end.
  apply wf_with_screen; [done | rewrite Hlen; apply Hwf | apply Hcols, Hwf].
Qed.

Lemma run_instr_wf w instr m r m' : wf m → run_instr w instr m = Ok (r, m') → wf m'.
Proof.
  intros Hwf. unfold run_instr.
  pose proof (land_fff_range instr) as Hnnn. revert Hnnn.
  generalize (Z.shiftr instr 12) (Z.land (Z.shiftr instr 8) 15)
    (Z.land (Z.shiftr instr 4) 15) (Z.land instr 15) (Z.land instr 255)
    (Z.land instr 4095).
  intros s x y n kk nnn Hnnn. cbv zeta.
  repeat (case_eqb; try (by intros [= <- <-]));
    intros H; apply bind_inv in H as (u & m1 & Hop & [= <- <-]);
    first [ by eapply CLS_wf | by eapply RET_wf
          | eapply JP_wf; [|done..]; lia | eapply CALL_wf; [|done..]; lia
          | by eapply SE_wf | by eapply SNE_wf | by eapply ADD_wf
          | by eapply SUB_wf | by eapply OR_wf | by eapply AND_wf | by eapply XOR_wf
          | by eapply SHR_wf | by eapply SHL_wf | by eapply RND_wf | by eapply DRW_wf
          | by eapply SKP_wf | by eapply SKNP_wf
          | eapply LD_wf; [|done..]; intros; simplify_eq; done ].
Qed.

Lemma tick_wf m u m' : wf m → tick m = Ok (u, m') → wf m'.
Proof.
  intros Hwf H. unfold tick in H. inv_M H; solve_wf Hwf.
Qed.

Lemma poll_and_tick_wf w m u m' : wf m → poll_and_tick w m = Ok (u, m') → wf m'.
Proof.
  intros Hwf H. unfold poll_and_tick in H.
  apply bind_inv in H as ([key val] & m1 & Hpoll & H).
  unfold lift in Hpoll. destruct (poll_keypress _); simplify_eq.
  apply bind_inv in H as (? & m2 & Hkb & H).
  assert (wf m2) as Hwf2.
  { destruct key as [k|]; [|by inv_M Hkb].
    destruct (Py.truthy k); [|by inv_M Hkb].
    inv_M Hkb. solve_wf Hwf. }
  destruct (timer_due w); simpl in H; [by eapply tick_wf | by inv_M H].
Qed.

Lemma iteration_wf w m st m' : wf m → iteration w m = Ok (st, m') → wf m'.
Proof.
  intros Hwf H. unfold iteration in H.
  apply bind_inv in H as (pc & m1 & Hpc & H). inv_M Hpc.
  apply bind_inv in H as (instr & m2 & Hfetch & H).
  apply fetch_inv in Hfetch as [-> _].
  apply bind_inv in H as (result & m3 & Hrun & H).
  apply run_instr_wf in Hrun; [|done].
  destruct result as [name|]; [|by inv_M H].
  apply bind_inv in H as (? & m4 & Hadv & H).
  assert (wf m4) as Hwf4.
  { destruct (negb _); inv_M Hadv; [solve_wf Hrun | done]. }
  apply bind_inv in H as (? & m5 & Hpt & H).
  apply poll_and_tick_wf in Hpt; [|done]. by inv_M H.
Qed.

Lemma init_wf binary m : init binary = Ok m → wf (with_PC start m).
Proof.
  unfold init. intros H. repeat case_match; simplify_eq.
  repeat match goal with
  | H : Py.set_slice _ _ _ _ = Some _ |- _ => apply set_slice_facts in H as [? ?]
  end.
  split; cbv [with_PC RAM V stack I PC SP DT ST keyboard screen screen_size fst snd start];
    rewrite ?length_replicate; try done; try lia.
  - etrans; [done|]. etrans; [done|]. by rewrite length_replicate.
  - solve_Forall. apply Forall_replicate. lia.
  - by apply forallb_in_range.
  - by apply forallb_in_range.
  - repeat constructor.
Qed.

Lemma reachable_wf binary m : reachable binary m → wf m.
Proof.
  induction 1 as [m Hinit|w m m' _ IH Hit].
  - by eapply init_wf.
  - by eapply iteration_wf.
Qed.

(** ** Reachable machines *)

Lemma run_instr_None w instr m m' :
  run_instr w instr m = Ok (None, m') → decodes instr = false ∧ m' = m.
Proof.
  intros H. destruct (decodes instr) eqn:Hdec.
  - by apply decodes_true in H.
  - rewrite decodes_false in H by done. by simplify_eq.
Qed.

Lemma iteration_Invalid_inv w m instr m' :
  iteration w m = Ok (InvalidInstruction instr, m') →
  m' = m ∧ next_instr m instr ∧ decodes instr = false.
Proof.
  intros H. unfold iteration in H.
  apply bind_inv in H as (pc & m1 & Hpc & H). inv_M Hpc.
  apply bind_inv in H as (instr' & m2 & Hfetch & H).
  pose proof (fetch_inv _ _ _ _ Hfetch) as [-> _].
  apply bind_inv in H as (result & m3 & Hrun & H).
  destruct result as [name|].
  - apply bind_inv in H as (? & ? & _ & H).
    apply bind_inv in H as (? & ? & _ & H). by inv_M H.
  - inv_M H. apply run_instr_None in Hrun as [? ->]. done.
Qed.

Lemma loop_reachable binary ws m st m' :
  reachable binary m → loop ws m = Ok (st, m') → reachable binary m'.
Proof.
  revert m. induction ws as [|w ws IH]; intros m Hm H; simpl in H.
  - by inv_M H.
  - apply bind_inv in H as (st1 & m1 & Hit & H). destruct st1.
    + eapply IH; [|done]. by eapply reachable_iteration.
    + inv_M H. by apply iteration_Invalid_inv in Hit as [-> _].
Qed.

Lemma main_reachable binary ws st m :
  main binary ws = Ok (st, m) → reachable binary m.
Proof.
  unfold main, run. destruct (init binary) as [m0| | |] eqn:Hinit; try done.
  intros H. apply bind_inv in H as (? & m1 & Hpc & H). inv_M Hpc.
  eapply loop_reachable; [|done]. by apply reachable_start.
Qed.

(** X1.  Every machine that the run loop can reach from a program file is
    well formed; in particular every register holds a byte and [I] a 12-bit
    address. *)
Theorem reachable_machines_are_well_formed binary m :
  reachable binary m →
  wf m ∧ (∀ x, 0 ≤ x < 16 → 0 ≤ reg m x ≤ 255) ∧ 0 ≤ I m ≤ 0xFFF.
Proof.
  intros Hm. pose proof (reachable_wf _ _ Hm) as Hwf. split; [done|]. split.
  - intros x Hx. pose proof (reg_u8 m x Hwf Hx). lia.
  - pose proof (wf_I m Hwf). lia.
Qed.

Lemma reachable_machines_are_well_formed_witness :
  reachable [0x60; 0x05; 0x61; 0x03] alu_example
  ∧ wf alu_example ∧ (∀ x, 0 ≤ x < 16 → 0 ≤ reg alu_example x ≤ 255)
  ∧ 0 ≤ I alu_example ≤ 0xFFF.
Proof.
  assert (reachable [0x60; 0x05; 0x61; 0x03] alu_example) as Hm.
  { apply (main_reachable _ [quiet; quiet] Continue). vm_compute. reflexivity. }
  split; [exact Hm|].
  apply (reachable_machines_are_well_formed _ _ Hm).
Defined.

Lemma ticks_Ok count m :
  0 ≤ DT m → 0 ≤ ST m →
  ∃ m', ticks count m = Ok (tt, m')
      ∧ DT m' = Z.max 0 (DT m - Z.of_nat count)
      ∧ ST m' = Z.max 0 (ST m - Z.of_nat count)
      ∧ same_core m m' ∧ keyboard m' = keyboard m.
Proof.
  revert m. induction count as [|count IH]; intros m Hdt Hst.
  - exists m. simpl. split; [done|]. split; [lia|]. split; [lia|]. done.
  - destruct (tick_Ok m) as (m1 & Htick & Hcore & Hkb & Hdt1 & Hst1).
    destruct (IH m1) as (m' & Hticks & Hdt' & Hst' & Hcore' & Hkb').
    { rewrite Hdt1. destruct (Z.ltb_spec 0 (DT m)); lia. }
    { rewrite Hst1. destruct (Z.ltb_spec 0 (ST m)); lia. }
    exists m'. split.
    { simpl. erewrite bind_Ok by exact Htick. done. }
    rewrite Hdt', Hst', Hdt1, Hst1, Hkb', Hkb.
    split; [destruct (Z.ltb_spec 0 (DT m)); lia|].
    split; [destruct (Z.ltb_spec 0 (ST m)); lia|].
    split; [|done].
    unfold same_core in *. destruct Hcore as (?&?&?&?&?&?&?), Hcore' as (?&?&?&?&?&?&?).
    repeat split; congruence.
Qed.

Lemma wait_key_frame polls x m u m' :
  wait_key polls x m = Ok (u, m') → ∃ l, m' = with_V l m.
Proof.
  induction polls as [|events polls IH]; simpl; [done|].
  intros H. apply bind_inv in H as ([key val] & m1 & Hpoll & H).
  unfold lift in Hpoll. destruct (poll_keypress events); simplify_eq.
  destruct key as [k|]; [|by apply IH].
  destruct (Py.truthy k && Py.truthy val); [|by apply IH].
  apply setV_inv in H as (l & _ & ->). eauto.
Qed.

Lemma DRW_frame x y n m u m' :
  DRW x y n m = Ok (u, m') → ∃ l scr, m' = with_V l (with_screen scr m).
Proof.
  intros H. unfold DRW in H.
  do 8 (apply bind_inv in H as (? & ? & ?Hstep & H)).
  apply getV_inv in Hstep1 as [-> _]. apply getV_inv in Hstep2 as [-> _].
  apply setV_inv in H as (l & _ & ->).
  unfold_M Hstep. unfold_M Hstep0. unfold_M Hstep3. unfold_M Hstep4.
  unfold_M Hstep5. unfold_M Hstep6.
  repeat case_match; simplify_eq. eauto.
Qed.

(** Which instructions can change which field: [s] and [kk] are the fields
    that [run_instr] extracts. *)
Lemma run_instr_frame w instr m r m' :
  run_instr w instr m = Ok (r, m') →
  let s := Z.shiftr instr 12 in
  let x := Z.land (Z.shiftr instr 8) 0xF in
  let kk := Z.land instr 0xff in
  keyboard m' = keyboard m
  ∧ (¬ (s = 0xF ∧ kk = 0x15) → DT m' = DT m)
  ∧ (¬ (s = 0xF ∧ kk = 0x18) → ST m' = ST m)
  ∧ (¬ (s = 0xF ∧ (kk = 0x33 ∨ kk = 0x55)) → RAM m' = RAM m)
  ∧ (¬ ((s = 0 ∧ x = 0 ∧ kk = 0xE0) ∨ s = 0xD) → screen m' = screen m)
  ∧ (¬ (s = 0xA ∨ (s = 0xF ∧ (kk = 0x1E ∨ kk = 0x29))) → I m' = I m)
  ∧ (¬ (s = 2 ∨ (s = 0 ∧ x = 0 ∧ kk = 0xEE)) → stack m' = stack m ∧ SP m' = SP m).
Proof.
  unfold run_instr.
  generalize (Z.shiftr instr 12) (Z.land (Z.shiftr instr 8) 15)
    (Z.land (Z.shiftr instr 4) 15) (Z.land instr 15) (Z.land instr 255)
    (Z.land instr 4095).
  intros s x y n kk nnn. cbv zeta.
  repeat (case_eqb; try (by intros [= <- <-])).
  all: intros H; apply bind_inv in H as (u & m1 & Hop & [= <- <-]).
  all:
    clear - Hop;
    lazymatch type of Hop with
    | DRW _ _ _ _ = _ => apply DRW_frame in Hop as (l & scr & ->)
    | _ =>
        unfold CLS, RET, pop, JP, CALL, push, SE, SNE, LD, ADD, SUB, OR, AND, XOR,
          SHR, SHL, RND, SKP, SKNP in Hop;
        simpl in Hop;
        lazymatch type of Hop with
        | wait_key _ _ _ = _ => apply wait_key_frame in Hop as (l & ->)
        | _ => inv_M Hop
        end
    end.
  all: simpl; repeat split; intros; try done;
    match goal with Hn : ¬ _ |- _ => contradict Hn; lia end.
Qed.

(** X2.  [k] entries into the timer block take [k] off each timer, stopping
    at 0, and touch nothing else: a timer at [d] is at 0 after [d] ticks and
    stays there. *)
Theorem ticks_count_down count m :
  0 ≤ DT m → 0 ≤ ST m →
  ∃ m', ticks count m = Ok (tt, m')
      ∧ DT m' = Z.max 0 (DT m - Z.of_nat count)
      ∧ ST m' = Z.max 0 (ST m - Z.of_nat count)
      ∧ same_core m m' ∧ keyboard m' = keyboard m.
Proof. apply ticks_Ok. Qed.

Lemma ticks_count_down_witness :
  0 ≤ DT countdown_example ∧ 0 ≤ ST countdown_example
  ∧ ∃ m', ticks 5 countdown_example = Ok (tt, m')
        ∧ DT m' = Z.max 0 (DT countdown_example - Z.of_nat 5)
        ∧ ST m' = Z.max 0 (ST countdown_example - Z.of_nat 5)
        ∧ same_core countdown_example m'
        ∧ keyboard m' = keyboard countdown_example.
Proof.
  split; [vm_compute; discriminate|]. split; [vm_compute; discriminate|].
  apply (ticks_count_down 5 countdown_example); vm_compute; discriminate.
Defined.

(** X3.  No instruction writes the keyboard vector, and only [LD DT, Vx]
    (Fx15) and [LD ST, Vx] (Fx18) write the delay and the sound timer. *)
Theorem instructions_leave_keyboard_and_timers w instr m r m' :
  run_instr w instr m = Ok (r, m') →
  keyboard m' = keyboard m
  ∧ (¬ (Z.shiftr instr 12 = 0xF ∧ Z.land instr 0xff = 0x15) → DT m' = DT m)
  ∧ (¬ (Z.shiftr instr 12 = 0xF ∧ Z.land instr 0xff = 0x18) → ST m' = ST m).
Proof.
  intros H. destruct (run_instr_frame _ _ _ _ _ H) as (? & ? & ? & _). auto.
Qed.

Lemma instructions_leave_keyboard_and_timers_witness :
  run_instr quiet 0xF015 countdown_example
  = Ok (Some "LD DT, Vx"%string, after_instr quiet 0xF015 countdown_example)
  ∧ keyboard (after_instr quiet 0xF015 countdown_example) = keyboard countdown_example
  ∧ (¬ (Z.shiftr 0xF015 12 = 0xF ∧ Z.land 0xF015 0xff = 0x15) →
     DT (after_instr quiet 0xF015 countdown_example) = DT countdown_example)
  ∧ (¬ (Z.shiftr 0xF015 12 = 0xF ∧ Z.land 0xF015 0xff = 0x18) →
     ST (after_instr quiet 0xF015 countdown_example) = ST countdown_example).
Proof.
  split; [vm_compute; reflexivity|].
  apply (instructions_leave_keyboard_and_timers quiet 0xF015 countdown_example
           (Some "LD DT, Vx"%string)).
  vm_compute. reflexivity.
Defined.





(** X4.  The display buffer is written by [CLS] (00E0) and [DRW] (Dxyn)
    only. *)
Theorem only_CLS_and_DRW_write_the_screen w instr m r m' :
  run_instr w instr m = Ok (r, m') →
  ¬ ((Z.shiftr instr 12 = 0 ∧ Z.land (Z.shiftr instr 8) 0xF = 0
      ∧ Z.land instr 0xff = 0xE0)
     ∨ Z.shiftr instr 12 = 0xD) →
  screen m' = screen m.
Proof.
  intros H. destruct (run_instr_frame _ _ _ _ _ H) as (_ & _ & _ & _ & ? & _). auto.
Qed.

Lemma only_CLS_and_DRW_write_the_screen_witness :
  run_instr quiet 0x8014 alu_example
  = Ok (Some "ADD Vx, Vy"%string, after_instr quiet 0x8014 alu_example)
  ∧ ¬ ((Z.shiftr 0x8014 12 = 0 ∧ Z.land (Z.shiftr 0x8014 8) 0xF = 0
        ∧ Z.land 0x8014 0xff = 0xE0)
       ∨ Z.shiftr 0x8014 12 = 0xD)
  ∧ screen (after_instr quiet 0x8014 alu_example) = screen alu_example.
Proof.
  split; [vm_compute; reflexivity|].
  split; [vm_compute; intros [(? & _)|?]; discriminate|].
  apply (only_CLS_and_DRW_write_the_screen quiet 0x8014 alu_example
           (Some "ADD Vx, Vy"%string));
    [vm_compute; reflexivity | vm_compute; intros [(? & _)|?]; discriminate].
Defined.

(** X5.  Memory is written by [LD B, Vx] (Fx33) and [LD [I], Vx] (Fx55)
    only; the index register by [LD I, nnn] (Annn), [ADD I, Vx] (Fx1E) and
    [LD F, Vx] (Fx29) only; the call stack and its pointer by [CALL] (2nnn)
    and [RET] (00EE) only. *)
Theorem writers_of_memory_index_and_stack w instr m r m' :
  run_instr w instr m = Ok (r, m') →
  let s := Z.shiftr instr 12 in
  let x := Z.land (Z.shiftr instr 8) 0xF in
  let kk := Z.land instr 0xff in
  (¬ (s = 0xF ∧ (kk = 0x33 ∨ kk = 0x55)) → RAM m' = RAM m)
  ∧ (¬ (s = 0xA ∨ (s = 0xF ∧ (kk = 0x1E ∨ kk = 0x29))) → I m' = I m)
  ∧ (¬ (s = 2 ∨ (s = 0 ∧ x = 0 ∧ kk = 0xEE)) → stack m' = stack m ∧ SP m' = SP m).
Proof.
  intros H. destruct (run_instr_frame _ _ _ _ _ H) as (_ & _ & _ & ? & _ & ? & ?).
  auto.
Qed.

Lemma writers_of_memory_index_and_stack_witness :
  run_instr quiet 0x8014 alu_example
  = Ok (Some "ADD Vx, Vy"%string, after_instr quiet 0x8014 alu_example)
  ∧ let m' := after_instr quiet 0x8014 alu_example in
    let s := Z.shiftr 0x8014 12 in
    let x := Z.land (Z.shiftr 0x8014 8) 0xF in
    let kk := Z.land 0x8014 0xff in
    (¬ (s = 0xF ∧ (kk = 0x33 ∨ kk = 0x55)) → RAM m' = RAM alu_example)
    ∧ (¬ (s = 0xA ∨ (s = 0xF ∧ (kk = 0x1E ∨ kk = 0x29))) → I m' = I alu_example)
    ∧ (¬ (s = 2 ∨ (s = 0 ∧ x = 0 ∧ kk = 0xEE)) →
       stack m' = stack alu_example ∧ SP m' = SP alu_example).
Proof.
  split; [vm_compute; reflexivity|].
  apply (writers_of_memory_index_and_stack quiet 0x8014 alu_example
           (Some "ADD Vx, Vy"%string)).
  vm_compute. reflexivity.
Defined.

(** ** The decoder against the instruction table *)

Lemma all_from_spec count i P :
  all_from count i P = true → ∀ j, i ≤ j < i + Z.of_nat count → P j = true.
Proof.
  revert i. induction count as [|count IH]; intros i; simpl; [lia|].
  rewrite andb_true_iff. intros [Hi Hrest] j Hj.
  destruct (decide (j = i)) as [->|]; [done|].
  apply (IH (i + 1)); [done | lia].
Qed.

(** The table, relaxed on families 5 and 9, and the tests of [run_instr]
    agree on each of the 65536 words. *)
Lemma accepted_decodes_all :
  all_from (Z.to_nat 65536) 0 (λ i, Bool.eqb (accepted i) (decodes i)) = true.
Proof. vm_compute. reflexivity. Qed.

Lemma accepted_decodes instr :
  0 ≤ instr < 65536 → accepted instr = decodes instr.
Proof.
  intros Hi. apply Bool.eqb_prop.
  apply (all_from_spec _ _ _ accepted_decodes_all). lia.
Qed.

Lemma fetch_u16 m a instr :
  wf m → fetch_instr a m = Ok (instr, m) → 0 ≤ instr < 65536.
Proof.
  intros Hwf H. apply fetch_inv in H as (_ & hi & lo & Hhi & Hlo & ->).
  pose proof (get_Forall _ _ _ _ (wf_RAM_u8 m Hwf) Hhi) as Hh.
  pose proof (get_Forall _ _ _ _ (wf_RAM_u8 m Hwf) Hlo) as Hl.
  simpl in Hh, Hl. rewrite Z.shiftl_mul_pow2 by lia. lia.
Qed.

(** X6.  The word that the loop fetches is rejected exactly when it matches
    no entry of the instruction table, families 5 and 9 being selected by
    their first digit alone.  A rejected word leaves the machine untouched,
    the iteration reports it, and the loop stops there whatever input
    remains; an accepted word never comes back as invalid. *)
Theorem decoder_rejects_exactly_the_unlisted_words w ws m instr :
  wf m → next_instr m instr →
  (accepted instr = false →
     run_instr w instr m = Ok (None, m) ∧ invalid_stated w ws m instr)
  ∧ (accepted instr = true → ∀ m', run_instr w instr m ≠ Ok (None, m')).
Proof.
  intros Hwf Hnext. pose proof (fetch_u16 _ _ _ Hwf Hnext) as Hrange.
  rewrite (accepted_decodes instr Hrange). split.
  - intros Hdec. pose proof (decodes_false w m instr Hdec) as Hrun.
    pose proof (iteration_invalid w m instr m Hnext Hrun) as Hit.
    split; [done|]. split; [done|].
    simpl. erewrite bind_Ok by exact Hit. done.
  - intros Hdec m'. by apply decodes_true.
Qed.

Lemma decoder_rejects_exactly_the_unlisted_words_witness :
  wf invalid_example ∧ next_instr invalid_example 0xFFFF
  ∧ (accepted 0xFFFF = false →
       run_instr quiet 0xFFFF invalid_example = Ok (None, invalid_example)
       ∧ invalid_stated quiet [quiet] invalid_example 0xFFFF)
  ∧ (accepted 0xFFFF = true →
       ∀ m', run_instr quiet 0xFFFF invalid_example ≠ Ok (None, m')).
Proof.
  split; [apply wf_check_sound; vm_compute; reflexivity|].
  split; [vm_compute; reflexivity|].
  apply (decoder_rejects_exactly_the_unlisted_words quiet [quiet] invalid_example 0xFFFF);
    [apply wf_check_sound; vm_compute; reflexivity | vm_compute; reflexivity].
Defined.

(** X7.  The decoder does not look at the low digit of a word of family 5
    or 9: 5xyn runs as [SE Vx, Vy] and 9xyn as [SNE Vx, Vy] for every [n],
    although the table lists 5xy0 and 9xy0 only. *)
Theorem families_5_and_9_ignore_the_low_digit w m x y n :
  0 ≤ x < 16 → 0 ≤ y < 16 → 0 ≤ n < 16 →
  run_instr w (word 5 x y n) m = (SE [x; y] 1;; mret (Some "SE Vx, Vy"%string)) m
  ∧ run_instr w (word 9 x y n) m = (SNE [x; y] 1;; mret (Some "SNE Vx, Vy"%string)) m
  ∧ (n ≠ 0 → documented (word 5 x y n) = false ∧ documented (word 9 x y n) = false).
Proof.
  intros Hx Hy Hn. split; [|split].
  - unfold run_instr.
    destruct (word_fields 5 x y n) as (-> & -> & -> & _); try lia. done.
  - unfold run_instr.
    destruct (word_fields 9 x y n) as (-> & -> & -> & _); try lia. done.
  - intros Hn0. unfold documented, nibbles, word.
    replace ((4096 * 5 + 256 * x + 16 * y + n) / 4096) with 5
      by (Z.div_mod_to_equations; lia).
    replace ((4096 * 9 + 256 * x + 16 * y + n) / 4096) with 9
      by (Z.div_mod_to_equations; lia).
    replace ((4096 * 5 + 256 * x + 16 * y + n) mod 16) with n
      by (Z.div_mod_to_equations; lia).
    replace ((4096 * 9 + 256 * x + 16 * y + n) mod 16) with n
      by (Z.div_mod_to_equations; lia).
    cbn [instruction_table existsb matches zip zip_with forallb fst snd Z.eqb Pos.eqb
         orb andb].
    by destruct n.
Qed.

Lemma families_5_and_9_ignore_the_low_digit_witness :
  0 ≤ 0 < 16 ∧ 0 ≤ 0 < 16 ∧ 0 ≤ 1 < 16
  ∧ run_instr quiet (word 5 0 0 1) lenient_example
    = (SE [0; 0] 1;; mret (Some "SE Vx, Vy"%string)) lenient_example
  ∧ run_instr quiet (word 9 0 0 1) lenient_example
    = (SNE [0; 0] 1;; mret (Some "SNE Vx, Vy"%string)) lenient_example
  ∧ (1 ≠ 0 → documented (word 5 0 0 1) = false ∧ documented (word 9 0 0 1) = false).
Proof.
  split; [lia|]. split; [lia|]. split; [lia|].
  apply (families_5_and_9_ignore_the_low_digit quiet lenient_example 0 0 1); lia.
Defined.




(** ** Drawing *)

Section slices.
Context {A : Type}.
Implicit Types (l : list A).

Lemma clamp_nonneg (len : nat) i :
  0 ≤ i → Py.clamp len i = Z.to_nat (Z.min i (Z.of_nat len)).
Proof. intros Hi. unfold Py.clamp. by destruct (Z.ltb_spec i 0); [lia|]. Qed.

Lemma slice_inside l a b :
  0 ≤ a ≤ b → b ≤ Z.of_nat (length l) →
  Py.slice l a b = take (Z.to_nat (b - a)) (drop (Z.to_nat a) l).
Proof.
  intros Hab Hb. unfold Py.slice, Py.slice_len.
  rewrite !clamp_nonneg by lia. f_equal; [lia | f_equal; lia].
Qed.

Lemma slice_inside_length l a b :
  0 ≤ a ≤ b → b ≤ Z.of_nat (length l) → length (Py.slice l a b) = Z.to_nat (b - a).
Proof.
  intros Hab Hb. rewrite slice_inside by done.
  rewrite length_take, length_drop. lia.
Qed.

Lemma slice_inside_lookup l a b k :
  0 ≤ a ≤ b → b ≤ Z.of_nat (length l) → (k < Z.to_nat (b - a))%nat →
  Py.slice l a b !! k = l !! (Z.to_nat a + k)%nat.
Proof.
  intros Hab Hb Hk. rewrite slice_inside by done.
  rewrite lookup_take_lt by done. by rewrite lookup_drop.
Qed.
End slices.

Lemma unpackbits_length b : length (unpackbits b) = 8%nat.
Proof. done. Qed.

Lemma unpackbits_lookup b (c : nat) :
  (c < 8)%nat → unpackbits b !! c = Some (Z.b2z (Z.testbit b (7 - Z.of_nat c))).
Proof.
  intros Hc. unfold unpackbits. rewrite list_lookup_fmap.
  rewrite lookup_seq_lt by done. done.
Qed.

(** The extents of the view, for an origin that is a pair of bytes. *)
Lemma view_extents (len : nat) (o k : Z) :
  0 ≤ o → 0 ≤ k →
  Z.of_nat (Py.clamp len o) = Z.min o (Z.of_nat len)
  ∧ Z.of_nat (Py.slice_len len o (o + k))
    = Z.min (o + k) (Z.of_nat len) - Z.min o (Z.of_nat len).
Proof.
  intros Ho Hk. unfold Py.slice_len. rewrite !clamp_nonneg by lia. lia.
Qed.

Lemma xor_view_pixel scr x0 y0 bits (cx cy : nat) p :
  scr !! cx ≫= (.!! cy) = Some p →
  xor_view scr x0 y0 bits !! cx ≫= (.!! cy)
  = Some (if (x0 <=? cx)%nat && (y0 <=? cy)%nat then
            match bits !! (cy - y0)%nat ≫= (.!! (cx - x0)%nat) with
            | Some b => Z.lxor p b
            | None => p
            end
          else p).
Proof.
  unfold xor_view. rewrite list_lookup_imap.
  destruct (scr !! cx) as [col|]; simpl; [|done].
  rewrite list_lookup_imap. intros ->. done.
Qed.

Lemma view_lookup scr x0 y0 h w (r c : nat) :
  (r < h)%nat → (c < w)%nat →
  view scr x0 y0 h w !! r ≫= (.!! c)
  = Some (default 0 (scr !! (x0 + c)%nat ≫= (.!! (y0 + r)%nat))).
Proof.
  intros Hr Hc. unfold view. rewrite list_lookup_fmap.
  rewrite lookup_seq_lt by done. simpl.
  rewrite list_lookup_fmap, lookup_seq_lt by done. done.
Qed.

Lemma view_shape scr x0 y0 h w :
  length (view scr x0 y0 h w) = h
  ∧ ∀ r row, view scr x0 y0 h w !! r = Some row → length row = w.
Proof.
  unfold view. split; [by rewrite length_fmap, length_seq|].
  intros r row. rewrite list_lookup_fmap.
  destruct (seq 0 h !! r); simpl; [|done].
  intros [= <-]. by rewrite length_fmap, length_seq.
Qed.

(** [any_ne] finds a position at which two arrays of one shape differ. *)
Lemma any_ne_true a b :
  any_ne a b = true ↔
  ∃ r c p q, a !! r ≫= (.!! c) = Some p ∧ b !! r ≫= (.!! c) = Some q ∧ p ≠ q.
Proof.
  unfold any_ne. rewrite existsb_exists. split.
  - intros ([ra rb] & Hin & Hrow). simpl in Hrow.
    apply existsb_exists in Hrow as ([p q] & Hin' & Hpq). simpl in Hpq.
    apply list_elem_of_In, list_elem_of_lookup in Hin as [r Hr].
    apply list_elem_of_In, list_elem_of_lookup in Hin' as [c Hc].
    apply lookup_zip_with_Some in Hr as (ra' & rb' & [= <- <-] & Hra & Hrb).
    apply lookup_zip_with_Some in Hc as (p' & q' & [= <- <-] & Hp & Hq).
    exists r, c, p, q. rewrite Hra, Hrb. simpl.
    split; [done|]. split; [done|].
    apply negb_true_iff, Z.eqb_neq in Hpq. done.
  - intros (r & c & p & q & Hp & Hq & Hpq).
    destruct (a !! r) as [ra|] eqn:Hra; [|done].
    destruct (b !! r) as [rb|] eqn:Hrb; [|done]. simpl in Hp, Hq.
    exists (ra, rb). split.
    + apply list_elem_of_In, list_elem_of_lookup. exists r.
      apply lookup_zip_with_Some. eauto.
    + simpl. apply existsb_exists. exists (p, q). split.
      * apply list_elem_of_In, list_elem_of_lookup. exists c.
        apply lookup_zip_with_Some. eauto.
      * simpl. by apply negb_true_iff, Z.eqb_neq.
Qed.

Lemma DRW_Ok m x y n bits :
  wf m → 0 ≤ x < 16 → 0 ≤ y < 16 →
  let x0 := Py.clamp 64 (reg m x) in
  let w := Py.slice_len 64 (reg m x) (reg m x + 8) in
  let y0 := Py.clamp 32 (reg m y) in
  let h := Py.slice_len 32 (reg m y) (reg m y + n) in
  broadcast_rows h
    (take w <$> take h (unpackbits <$> Py.slice (RAM m) (I m) (I m + n)))
  = Some bits →
  DRW x y n m
  = Ok (tt, with_V (<[15%nat := uint8 (Z.b2z (any_ne
                       (view (xor_view (screen m) x0 y0 bits) x0 y0 h w) bits))]>
                    (V m))
                   (with_screen (xor_view (screen m) x0 y0 bits) m)).
Proof.
  intros Hwf Hx Hy x0 w y0 h Hbits. pose proof (wf_V m Hwf) as Hlen.
  unfold DRW.
  unfold mbind at 1, M_bind at 1, gets at 1.
  unfold mbind at 1, M_bind at 1, gets at 1.
  rewrite (bind_Ok _ _ _ _ _ (getV_Ok m x Hlen Hx)).
  rewrite (bind_Ok _ _ _ _ _ (getV_Ok m y Hlen Hy)).
  change (screen_size.1) with 64%nat. change (screen_size.2) with 32%nat.
  fold x0 w y0 h. rewrite Hbits.
  unfold mbind at 1, M_bind at 1, or_raise, mret, M_ret.
  unfold mbind at 1, M_bind at 1, gets at 1.
  unfold mbind at 1, M_bind at 1, modify at 1.
  unfold mbind at 1, M_bind at 1, gets at 1.
  rewrite setV_Ok by (done || lia). done.
Qed.

(** Whether a coordinate falls in the clamped extent of a slice that starts
    at a non-negative origin. *)
Lemma window (len : nat) (o k c : Z) :
  0 ≤ o → 0 ≤ k → 0 ≤ c < Z.of_nat len →
  ((Py.clamp len o ≤ Z.to_nat c)%nat
   ∧ (Z.to_nat c - Py.clamp len o < Py.slice_len len o (o + k))%nat)
  ↔ o ≤ c < o + k.
Proof.
  intros Ho Hk Hc. destruct (view_extents len o k Ho Hk) as [Hclamp Hlen]. lia.
Qed.

Section sprite.
Variables (m : machine) (n : Z).
Hypothesis Hwf : wf m.
Hypothesis Hn : 0 ≤ n.
Hypothesis Hsprite : I m + n ≤ 4096.

Let rows (h w : nat) : list (list Z) :=
  take w <$> take h (unpackbits <$> Py.slice (RAM m) (I m) (I m + n)).

Lemma rows_length h w : (h ≤ Z.to_nat n)%nat → length (rows h w) = h.
Proof.
  intros Hh. unfold rows. pose proof (wf_I m Hwf). pose proof (wf_RAM m Hwf) as HRAM.
  rewrite length_fmap, length_take, length_fmap.
  rewrite slice_inside_length by lia. lia.
Qed.

Lemma rows_lookup h w (r c : nat) :
  (h ≤ Z.to_nat n)%nat → (w ≤ 8)%nat → (r < h)%nat → (c < w)%nat →
  rows h w !! r ≫= (.!! c) = Some (sprite_bit m (Z.of_nat r) (Z.of_nat c)).
Proof.
  intros Hh Hw Hr Hc. unfold rows, sprite_bit, byte_at.
  pose proof (wf_I m Hwf). pose proof (wf_RAM m Hwf) as HRAM.
  rewrite list_lookup_fmap, lookup_take_lt, list_lookup_fmap by done.
  rewrite slice_inside_lookup by lia.
  replace (Z.to_nat (I m) + r)%nat with (Z.to_nat (I m + Z.of_nat r)) by lia.
  destruct (lookup_lt_is_Some_2 (RAM m) (Z.to_nat (I m + Z.of_nat r))) as [b ->];
    [lia|]. simpl.
  rewrite lookup_take_lt by done. apply unpackbits_lookup. lia.
Qed.

Lemma rows_lookup_Some h w (r c : nat) q :
  rows h w !! r ≫= (.!! c) = Some q → (r < h)%nat ∧ (c < w)%nat.
Proof.
  unfold rows. rewrite list_lookup_fmap.
  destruct (take h _ !! r) as [row|] eqn:Hrow; simpl; [|done].
  intros Hq. split.
  - apply lookup_lt_Some in Hrow. rewrite length_take in Hrow. lia.
  - apply lookup_lt_Some in Hq. rewrite length_take in Hq. lia.
Qed.
End sprite.

Lemma pixel_Some m (cx cy : Z) :
  wf m → on_screen cx cy →
  screen m !! Z.to_nat cx ≫= (.!! Z.to_nat cy) = Some (pixel m cx cy).
Proof.
  intros Hwf [Hcx Hcy]. unfold pixel.
  destruct (lookup_lt_is_Some_2 (screen m) (Z.to_nat cx)) as [col Hcol];
    [rewrite (wf_screen m Hwf); lia|].
  rewrite Hcol. simpl.
  pose proof (Forall_lookup_1 _ _ _ _ (wf_columns m Hwf) Hcol) as Hlen. simpl in Hlen.
  destruct (lookup_lt_is_Some_2 col (Z.to_nat cy)) as [p ->]; [lia | done].
Qed.

Lemma uint8_b2z_1 b : uint8 (Z.b2z b) = 1 ↔ b = true.
Proof. by destruct b. Qed.

Lemma reg_flag m v vs :
  length vs = 16%nat → reg (with_V (<[15%nat := v]> vs) m) 0xF = v.
Proof. intros Hlen. by apply (reg_insert_eq m 15). Qed.

Lemma reg_beside_flag m r v vs :
  0 ≤ r < 15 → reg (with_V (<[15%nat := v]> vs) m) r = default 0 (vs !! Z.to_nat r).
Proof. intros Hr. by apply (reg_insert_ne m 15); lia. Qed.

Lemma DRW_drawn m x y n :
  wf m → 0 ≤ x < 16 → 0 ≤ y < 16 → 0 ≤ n → I m + n ≤ 4096 →
  ∃ m', DRW x y n m = Ok (tt, m') ∧ drawn x y n m m'.
Proof.
  intros Hwf Hx Hy Hn Hsprite.
  pose proof (reg_u8 m x Hwf Hx) as Hox. pose proof (reg_u8 m y Hwf Hy) as Hoy.
  pose proof (wf_V m Hwf) as HV.
  unfold drawn.
  set (ox := reg m x) in *. set (oy := reg m y) in *.
  set (x0 := Py.clamp 64 ox). set (w := Py.slice_len 64 ox (ox + 8)).
  set (y0 := Py.clamp 32 oy). set (h := Py.slice_len 32 oy (oy + n)).
  set (bits := take w <$> take h (unpackbits <$> Py.slice (RAM m) (I m) (I m + n))).
  destruct (view_extents 64 ox 8) as [Hx0 Hw]; [lia..|].
  destruct (view_extents 32 oy n) as [Hy0 Hh]; [lia..|].
  fold x0 in Hx0. fold w in Hw. fold y0 in Hy0. fold h in Hh.
  assert (h ≤ Z.to_nat n)%nat as Hhn by lia.
  assert (w ≤ 8)%nat as Hw8 by lia.
  assert (length bits = h) as Hrows by (by apply rows_length).
  assert (broadcast_rows h bits = Some bits) as Hbits.
  { unfold broadcast_rows. by rewrite Hrows, Nat.eqb_refl. }
  eexists. split; [by apply DRW_Ok|].
  fold ox oy x0 y0 w h.
  set (scr' := xor_view (screen m) x0 y0 bits).
  assert (∀ cx cy, on_screen cx cy →
            scr' !! Z.to_nat cx ≫= (.!! Z.to_nat cy)
            = Some (if covers ox oy n cx cy
                    then Z.lxor (pixel m cx cy) (sprite_bit m (cy - oy) (cx - ox))
                    else pixel m cx cy)) as Hpixels.
  { intros cx cy Hon. pose proof Hon as [Hcx Hcy].
    unfold scr'. rewrite (xor_view_pixel _ _ _ _ _ _ _ (pixel_Some m cx cy Hwf Hon)).
    f_equal.
    assert (covers ox oy n cx cy = true ↔ (ox ≤ cx < ox + 8) ∧ (oy ≤ cy < oy + n))
      as Hcov.
    { unfold covers. rewrite !andb_true_iff, !Z.leb_le, !Z.ltb_lt. lia. }
    destruct (covers ox oy n cx cy).
    - destruct Hcov as [Hcov _].
      replace ((x0 <=? Z.to_nat cx)%nat) with true by (symmetry; apply Nat.leb_le; lia).
      replace ((y0 <=? Z.to_nat cy)%nat) with true by (symmetry; apply Nat.leb_le; lia).
      simpl. rewrite (rows_lookup m n Hwf Hn Hsprite h w) by lia.
      do 2 f_equal; lia.
    - destruct ((x0 <=? Z.to_nat cx)%nat && (y0 <=? Z.to_nat cy)%nat) eqn:Hle; [|done].
      apply andb_true_iff in Hle as [Hlx Hly].
      apply Nat.leb_le in Hlx, Hly.
      destruct (_ ≫= _) as [q|] eqn:Hq; [|done].
      apply rows_lookup_Some in Hq.
      assert (false = true) by (apply Hcov; lia). done. }
  split; [|split; [|split; [|split]]].
  - intros cx cy Hon. unfold pixel at 1. simpl. fold scr'.
    by rewrite (Hpixels cx cy Hon).
  - rewrite reg_flag by done. by destruct (any_ne _ _); [left|right].
  - rewrite reg_flag by done.
    rewrite uint8_b2z_1, any_ne_true. split.
    + intros (r & c & p & q & Hp & Hq & Hpq).
      destruct (rows_lookup_Some m n h w r c q Hq) as [Hr Hc].
      rewrite (rows_lookup m n Hwf Hn Hsprite h w) in Hq by done.
      rewrite view_lookup in Hp by done.
      injection Hq as <-. injection Hp as <-.
      exists (Z.of_nat (x0 + c)), (Z.of_nat (y0 + r)).
      split; [unfold on_screen; lia|].
      split; [unfold covers; rewrite !andb_true_iff, !Z.leb_le, !Z.ltb_lt; lia|].
      unfold pixel. simpl. fold scr'. rewrite !Nat2Z.id.
      replace (Z.of_nat (y0 + r) - oy) with (Z.of_nat r) by lia.
      replace (Z.of_nat (x0 + c) - ox) with (Z.of_nat c) by lia. done.
    + intros (cx & cy & Hon & Hcov & Hne). pose proof Hon as [Hcx Hcy].
      unfold covers in Hcov.
      rewrite !andb_true_iff, !Z.leb_le, !Z.ltb_lt in Hcov.
      exists (Z.to_nat (cy - oy)), (Z.to_nat (cx - ox)),
        (pixel (with_screen scr' m) cx cy), (sprite_bit m (cy - oy) (cx - ox)).
      split; [|split].
      * rewrite view_lookup by lia. unfold pixel. simpl.
        replace (x0 + Z.to_nat (cx - ox))%nat with (Z.to_nat cx) by lia.
        replace (y0 + Z.to_nat (cy - oy))%nat with (Z.to_nat cy) by lia. done.
      * rewrite (rows_lookup m n Hwf Hn Hsprite h w) by lia.
        do 2 f_equal; lia.
      * intros Heq. apply Hne. rewrite <- Heq. done.
  - intros r Hr. by rewrite reg_beside_flag.
  - by destruct m.
Qed.

Lemma run_instr_Dxyn w m x y n :
  0 ≤ x < 16 → 0 ≤ y < 16 → 0 ≤ n < 16 →
  run_instr w (word 0xD x y n) m = (DRW x y n;; mret (Some "DRW Vx, Vy, n"%string)) m.
Proof.
  intros Hx Hy Hn. unfold run_instr.
  destruct (word_fields 0xD x y n) as (-> & -> & -> & -> & _); try lia.
  done.
Qed.

Lemma DRW_run w m x y n :
  wf m → 0 ≤ x < 16 → 0 ≤ y < 16 → 0 ≤ n ≤ 15 → I m + n ≤ 4096 →
  DRW_stated w m x y n.
Proof.
  intros Hwf Hx Hy Hn Hsprite.
  destruct (DRW_drawn m x y n) as (m' & Hrun & Hdrawn); [done.. | lia | done |].
  exists m'. split; [|done].
  rewrite run_instr_Dxyn by (done || lia). erewrite bind_Ok by exact Hrun. done.
Qed.

(** X8.  For every height [n] up to 15 and all register indices, provided
    the [n] sprite bytes at [I] lie within memory, [DRW Vx, Vy, n] XORs the
    8-wide, [n]-tall, most-significant-bit-first bitmap onto the display
    buffer at origin [(V[x], V[y])], clipped at the right and bottom edges,
    and sets [V[0xF]] to 1 exactly when some pixel under the sprite then
    differs from its sprite bit, to 0 otherwise; nothing else changes.
    Drawing the sprite [0xFF] at (0, 0) onto a clear buffer gives the row
    of eight 1s with [V[0xF] = 0]. *)
Theorem DRW_xors_the_sprite :
  (∀ w m x y n,
     wf m → 0 ≤ x < 16 → 0 ≤ y < 16 → 0 ≤ n ≤ 15 → I m + n ≤ 4096 →
     DRW_stated w m x y n)
  ∧ (∃ m', run_instr quiet 0xD001 sprite_example
           = Ok (Some "DRW Vx, Vy, n"%string, m')
         ∧ (λ cx, pixel m' cx 0) <$> [0; 1; 2; 3; 4; 5; 6; 7] = [1; 1; 1; 1; 1; 1; 1; 1]
         ∧ reg m' 0xF = 0).
Proof.
  split; [apply DRW_run|].
  eexists. split; [vm_compute; reflexivity|]. by vm_compute.
Qed.

Lemma DRW_xors_the_sprite_witness :
  wf sprite_example ∧ 0 ≤ 0 < 16 ∧ 0 ≤ 0 < 16 ∧ 0 ≤ 1 ≤ 15
  ∧ I sprite_example + 1 ≤ 4096
  ∧ DRW_stated quiet sprite_example 0 0 1.
Proof.
  split; [apply wf_check_sound; vm_compute; reflexivity|].
  split; [lia|]. split; [lia|]. split; [lia|].
  split; [vm_compute; discriminate|].
  apply (proj1 DRW_xors_the_sprite quiet sprite_example 0 0 1);
    [apply wf_check_sound; vm_compute; reflexivity | lia | lia | lia
    | vm_compute; discriminate].
Defined.




Lemma lxor_differs p b : Z.lxor p b ≠ b ↔ p ≠ 0.
Proof.
  split; intros H Heq; apply H.
  - subst. apply Z.lxor_0_l.
  - assert (Z.lxor (Z.lxor p b) b = p) as Hp
      by (by rewrite Z.lxor_assoc, Z.lxor_nilpotent, Z.lxor_0_r).
    by rewrite Heq, Z.lxor_nilpotent in Hp.
Qed.

(** X9.  The collision flag of [DRW] does not depend on the sprite: under
    the hypotheses of X8, [V[0xF]] is 1 exactly when some pixel under the
    sprite was non-zero before the draw. *)
Theorem DRW_flag_tells_a_lit_pixel_under_the_sprite w m x y n :
  wf m → 0 ≤ x < 16 → 0 ≤ y < 16 → 0 ≤ n ≤ 15 → I m + n ≤ 4096 →
  ∃ m', run_instr w (word 0xD x y n) m = Ok (Some "DRW Vx, Vy, n"%string, m')
      ∧ (reg m' 0xF = 1 ↔
         ∃ cx cy, on_screen cx cy ∧ covers (reg m x) (reg m y) n cx cy = true
                  ∧ pixel m cx cy ≠ 0).
Proof.
  intros Hwf Hx Hy Hn Hsprite.
  destruct (DRW_run w m x y n) as (m' & Hrun & Hpix & _ & Hflag & _); [done..|].
  exists m'. split; [done|]. rewrite Hflag.
  split; intros (cx & cy & Hon & Hcov & Hne); exists cx, cy;
    (split; [done|]); (split; [done|]).
  - rewrite (Hpix cx cy Hon), Hcov in Hne. by apply lxor_differs in Hne.
  - rewrite (Hpix cx cy Hon), Hcov. by apply lxor_differs.
Qed.

Lemma DRW_flag_tells_a_lit_pixel_under_the_sprite_witness :
  wf sprite_example ∧ 0 ≤ 0 < 16 ∧ 0 ≤ 0 < 16 ∧ 0 ≤ 1 ≤ 15
  ∧ I sprite_example + 1 ≤ 4096
  ∧ ∃ m', run_instr quiet (word 0xD 0 0 1) sprite_example
          = Ok (Some "DRW Vx, Vy, n"%string, m')
        ∧ (reg m' 0xF = 1 ↔
           ∃ cx cy, on_screen cx cy
                    ∧ covers (reg sprite_example 0) (reg sprite_example 0) 1 cx cy = true
                    ∧ pixel sprite_example cx cy ≠ 0).
Proof.
  split; [apply wf_check_sound; vm_compute; reflexivity|].
  split; [lia|]. split; [lia|]. split; [lia|].
  split; [vm_compute; discriminate|].
  apply (DRW_flag_tells_a_lit_pixel_under_the_sprite quiet sprite_example 0 0 1);
    [apply wf_check_sound; vm_compute; reflexivity | lia | lia | lia
    | vm_compute; discriminate].
Defined.

Lemma screen_ext m m' :
  wf m → wf m' →
  (∀ cx cy, on_screen cx cy → pixel m' cx cy = pixel m cx cy) →
  screen m' = screen m.
Proof.
  intros Hwf Hwf' Hpix. apply list_eq. intros i.
  destruct (decide (i < 64)%nat) as [Hi|Hi].
  - destruct (lookup_lt_is_Some_2 (screen m) i) as [col Hcol];
      [rewrite (wf_screen m Hwf); lia|].
    destruct (lookup_lt_is_Some_2 (screen m') i) as [col' Hcol'];
      [rewrite (wf_screen m' Hwf'); lia|].
    rewrite Hcol, Hcol'. f_equal. apply list_eq. intros j.
    pose proof (Forall_lookup_1 _ _ _ _ (wf_columns m Hwf) Hcol) as Hlen.
    pose proof (Forall_lookup_1 _ _ _ _ (wf_columns m' Hwf') Hcol') as Hlen'.
    simpl in Hlen, Hlen'.
    destruct (decide (j < 32)%nat) as [Hj|Hj].
    + specialize (Hpix (Z.of_nat i) (Z.of_nat j)). unfold pixel in Hpix.
      rewrite !Nat2Z.id, Hcol, Hcol' in Hpix. simpl in Hpix.
      destruct (lookup_lt_is_Some_2 col j) as [p Hp]; [lia|].
      destruct (lookup_lt_is_Some_2 col' j) as [p' Hp']; [lia|].
      rewrite Hp, Hp' in *. simpl in Hpix. f_equal. apply Hpix.
      unfold on_screen. lia.
    + rewrite !lookup_ge_None_2 by lia. done.
  - rewrite !lookup_ge_None_2; [done | rewrite (wf_screen m Hwf); lia
                               | rewrite (wf_screen m' Hwf'); lia].
Qed.

Lemma drawn_frame x y n m m' :
  drawn x y n m m' → RAM m' = RAM m ∧ I m' = I m.
Proof.
  intros (_ & _ & _ & _ & Hm). split.
  - by apply (f_equal RAM) in Hm.
  - by apply (f_equal I) in Hm.
Qed.

Lemma DRW_twice w1 w2 m x y n :
  wf m → 0 ≤ x < 15 → 0 ≤ y < 15 → 0 ≤ n ≤ 15 → I m + n ≤ 4096 →
  ∃ m1 m2,
    run_instr w1 (word 0xD x y n) m = Ok (Some "DRW Vx, Vy, n"%string, m1)
    ∧ run_instr w2 (word 0xD x y n) m1 = Ok (Some "DRW Vx, Vy, n"%string, m2)
    ∧ screen m2 = screen m.
Proof.
  intros Hwf Hx Hy Hn Hsprite.
  destruct (DRW_run w1 m x y n) as (m1 & Hrun1 & Hdrawn1); [done | lia | lia | done..|].
  pose proof (run_instr_wf _ _ _ _ _ Hwf Hrun1) as Hwf1.
  destruct (drawn_frame _ _ _ _ _ Hdrawn1) as [HRAM HI].
  destruct Hdrawn1 as (Hpix1 & _ & _ & Hregs & _).
  destruct (DRW_run w2 m1 x y n) as (m2 & Hrun2 & Hdrawn2);
    [done | lia | lia | done | lia |].
  pose proof (run_instr_wf _ _ _ _ _ Hwf1 Hrun2) as Hwf2.
  destruct Hdrawn2 as (Hpix2 & _).
  exists m1, m2. split; [done|]. split; [done|].
  apply screen_ext; [done..|]. intros cx cy Hon.
  rewrite (Hpix2 cx cy Hon), (Hpix1 cx cy Hon), !Hregs by done.
  destruct (covers _ _ _ _ _); [|done].
  replace (sprite_bit m1 (cy - reg m y) (cx - reg m x))
    with (sprite_bit m (cy - reg m y) (cx - reg m x))
    by (unfold sprite_bit, byte_at; by rewrite HRAM, HI).
  by rewrite Z.lxor_assoc, Z.lxor_nilpotent, Z.lxor_0_r.
Qed.

Section clamped.
Context {A : Type}.
Implicit Types (l : list A).

Lemma slice_to_end_length l a b :
  0 ≤ a ≤ Z.of_nat (length l) → Z.of_nat (length l) ≤ b →
  length (Py.slice l a b) = (length l - Z.to_nat a)%nat.
Proof.
  intros Ha Hb. unfold Py.slice, Py.slice_len. rewrite !clamp_nonneg by lia.
  rewrite length_take, length_drop. lia.
Qed.
End clamped.

Lemma DRW_Raise m x y n :
  wf m → 0 ≤ x < 16 → 0 ≤ y < 16 →
  broadcast_rows (Py.slice_len 32 (reg m y) (reg m y + n))
    (take (Py.slice_len 64 (reg m x) (reg m x + 8)) <$>
     take (Py.slice_len 32 (reg m y) (reg m y + n))
       (unpackbits <$> Py.slice (RAM m) (I m) (I m + n)))
  = None →
  DRW x y n m = Raise ValueError.
Proof.
  intros Hwf Hx Hy Hbits. pose proof (wf_V m Hwf) as Hlen.
  unfold DRW.
  unfold mbind at 1, M_bind at 1, gets at 1.
  unfold mbind at 1, M_bind at 1, gets at 1.
  rewrite (bind_Ok _ _ _ _ _ (getV_Ok m x Hlen Hx)).
  rewrite (bind_Ok _ _ _ _ _ (getV_Ok m y Hlen Hy)).
  change (screen_size.1) with 64%nat. change (screen_size.2) with 32%nat.
  rewrite Hbits. done.
Qed.

Lemma DRW_past_memory m x y n :
  wf m → 0 ≤ x < 16 → 0 ≤ y < 16 → 0 ≤ n ≤ 15 →
  2 ≤ 4096 - I m < n → reg m y + (4096 - I m) < 32 →
  DRW x y n m = Raise ValueError.
Proof.
  intros Hwf Hx Hy Hn Havail Hvisible.
  pose proof (reg_u8 m y Hwf Hy) as Hoy. pose proof (wf_I m Hwf) as HI.
  apply DRW_Raise; [done..|].
  destruct (view_extents 32 (reg m y) n) as [_ Hh]; [lia..|].
  set (h := Py.slice_len 32 (reg m y) (reg m y + n)) in *.
  set (w := Py.slice_len 64 (reg m x) (reg m x + 8)).
  unfold broadcast_rows.
  assert (length (take w <$> take h (unpackbits <$> Py.slice (RAM m) (I m) (I m + n)))
          = Z.to_nat (4096 - I m)) as Hrows.
  { rewrite length_fmap, length_take, length_fmap.
    rewrite slice_to_end_length by (rewrite (wf_RAM m Hwf); lia).
    rewrite (wf_RAM m Hwf). lia. }
  destruct (Nat.eqb_spec (length (take w <$> take h
              (unpackbits <$> Py.slice (RAM m) (I m) (I m + n)))) h) as [Heq|_];
    [lia|].
  destruct (take w <$> _) as [|r1 [|r2 rest]]; simpl in Hrows; [done | lia | done].
Qed.

(** X10.  Drawing is its own inverse: with [x] and [y] other than 0xF (so
    that the flag written by the first draw does not move the origin), two
    [DRW Vx, Vy, n] in a row leave the display buffer as it was. *)
Theorem DRW_twice_restores_the_screen w1 w2 m x y n :
  wf m → 0 ≤ x < 15 → 0 ≤ y < 15 → 0 ≤ n ≤ 15 → I m + n ≤ 4096 →
  ∃ m1 m2,
    run_instr w1 (word 0xD x y n) m = Ok (Some "DRW Vx, Vy, n"%string, m1)
    ∧ run_instr w2 (word 0xD x y n) m1 = Ok (Some "DRW Vx, Vy, n"%string, m2)
    ∧ screen m2 = screen m.
Proof. apply DRW_twice. Qed.

Lemma DRW_twice_restores_the_screen_witness :
  wf sprite_example ∧ 0 ≤ 0 < 15 ∧ 0 ≤ 0 < 15 ∧ 0 ≤ 1 ≤ 15
  ∧ I sprite_example + 1 ≤ 4096
  ∧ ∃ m1 m2,
      run_instr quiet (word 0xD 0 0 1) sprite_example
      = Ok (Some "DRW Vx, Vy, n"%string, m1)
      ∧ run_instr quiet (word 0xD 0 0 1) m1 = Ok (Some "DRW Vx, Vy, n"%string, m2)
      ∧ screen m2 = screen sprite_example.
Proof.
  split; [apply wf_check_sound; vm_compute; reflexivity|].
  split; [lia|]. split; [lia|]. split; [lia|].
  split; [vm_compute; discriminate|].
  apply (DRW_twice_restores_the_screen quiet quiet sprite_example 0 0 1);
    [apply wf_check_sound; vm_compute; reflexivity | lia | lia | lia
    | vm_compute; discriminate].
Defined.

(** X11.  A sprite that runs past the end of memory: when at least two but
    fewer than [n] of its bytes are in memory and more rows than that are
    on the screen, the in-place XOR cannot broadcast and [DRW] raises
    [ValueError]. *)
Theorem DRW_past_the_end_of_memory_raises w m x y n :
  wf m → 0 ≤ x < 16 → 0 ≤ y < 16 → 0 ≤ n ≤ 15 →
  2 ≤ 4096 - I m < n → reg m y + (4096 - I m) < 32 →
  run_instr w (word 0xD x y n) m = Raise ValueError.
Proof.
  intros Hwf Hx Hy Hn Havail Hvisible.
  rewrite run_instr_Dxyn by (done || lia).
  by apply bind_Raise, DRW_past_memory.
Qed.

Lemma DRW_past_the_end_of_memory_raises_witness :
  wf sprite_past_memory_example ∧ 0 ≤ 0 < 16 ∧ 0 ≤ 0 < 16 ∧ 0 ≤ 3 ≤ 15
  ∧ 2 ≤ 4096 - I sprite_past_memory_example < 3
  ∧ reg sprite_past_memory_example 0 + (4096 - I sprite_past_memory_example) < 32
  ∧ run_instr quiet (word 0xD 0 0 3) sprite_past_memory_example = Raise ValueError.
Proof.
  split; [apply wf_check_sound; vm_compute; reflexivity|].
  split; [lia|]. split; [lia|]. split; [lia|].
  split; [vm_compute; split; [discriminate | reflexivity]|].
  split; [vm_compute; reflexivity|].
  apply (DRW_past_the_end_of_memory_raises quiet sprite_past_memory_example 0 0 3);
    [apply wf_check_sound; vm_compute; reflexivity | lia | lia | lia
    | vm_compute; split; [discriminate | reflexivity] | vm_compute; reflexivity].
Defined.

(** ** Registers and arithmetic *)

Lemma uint8_small v : 0 ≤ v < 256 → uint8 v = v.
Proof. intros Hv. unfold uint8. by apply Z.mod_small. Qed.

Lemma uint8_land_ones v : uint8 v = Z.land v (Z.ones 8).
Proof. unfold uint8. by rewrite Z.land_ones by lia. Qed.

Lemma uint8_lor a b : 0 ≤ a < 256 → 0 ≤ b < 256 → uint8 (Z.lor a b) = Z.lor a b.
Proof.
  intros Ha Hb. rewrite uint8_land_ones, Z.land_lor_distr_l.
  by rewrite <- !uint8_land_ones, !uint8_small.
Qed.

Lemma uint8_lxor a b : 0 ≤ a < 256 → 0 ≤ b < 256 → uint8 (Z.lxor a b) = Z.lxor a b.
Proof.
  intros Ha Hb. rewrite uint8_land_ones.
  assert (Z.land (Z.lxor a b) (Z.ones 8)
          = Z.lxor (Z.land a (Z.ones 8)) (Z.land b (Z.ones 8))) as ->.
  { apply Z.bits_inj'. intros i Hi.
    rewrite !Z.land_spec, !Z.lxor_spec, !Z.land_spec.
    by destruct (Z.testbit a i), (Z.testbit b i), (Z.testbit (Z.ones 8) i). }
  by rewrite <- !uint8_land_ones, !uint8_small.
Qed.

Lemma uint8_land a b : 0 ≤ a < 256 → uint8 (Z.land a b) = Z.land a b.
Proof.
  intros Ha. rewrite uint8_land_ones, <- Z.land_assoc, (Z.land_comm b), Z.land_assoc.
  by rewrite <- uint8_land_ones, uint8_small.
Qed.

(** One store into a register. *)
Lemma setV_reg m x v :
  wf m → 0 ≤ x < 16 →
  ∃ m', setV x v m = Ok (tt, m') ∧ wf m'
      ∧ reg m' x = uint8 v
      ∧ (∀ r, 0 ≤ r < 16 → r ≠ x → reg m' r = reg m r)
      ∧ with_V (V m) m' = m.
Proof.
  intros Hwf Hx. pose proof (wf_V m Hwf) as Hlen.
  eexists. split; [by apply setV_Ok|]. split; [|split; [|split]].
  - eapply setV_wf; [done|]. by apply setV_Ok.
  - by apply reg_insert_eq.
  - intros r Hr Hne. by rewrite reg_insert_ne by lia.
  - by destruct m.
Qed.

Lemma binop_reg (f : Z → Z → Z) m x y :
  wf m → 0 ≤ x < 16 → 0 ≤ y < 16 →
  ∃ m', (vx ← getV x; vy ← getV y; setV x (f vx vy)) m = Ok (tt, m')
      ∧ only_register x (uint8 (f (reg m x) (reg m y))) m m'.
Proof.
  intros Hwf Hx Hy. pose proof (wf_V m Hwf) as Hlen.
  destruct (setV_reg m x (f (reg m x) (reg m y)) Hwf Hx) as (m' & Hset & _ & Hregs).
  exists m'. split; [|done].
  rewrite (bind_Ok _ _ _ _ _ (getV_Ok m x Hlen Hx)).
  by rewrite (bind_Ok _ _ _ _ _ (getV_Ok m y Hlen Hy)).
Qed.

(** X12.  [OR], [AND] and [XOR Vx, Vy] (8xy1, 8xy2, 8xy3) store the
    bitwise combination of [V[x]] and [V[y]] into [V[x]] and change nothing
    else: [V[0xF]] in particular is left alone. *)
Theorem logic_ops_are_bitwise w m x y :
  wf m → 0 ≤ x < 16 → 0 ≤ y < 16 →
  (∃ m', run_instr w (word 8 x y 1) m = Ok (Some "OR Vx, Vy"%string, m')
       ∧ only_register x (Z.lor (reg m x) (reg m y)) m m')
  ∧ (∃ m', run_instr w (word 8 x y 2) m = Ok (Some "AND Vx, Vy"%string, m')
         ∧ only_register x (Z.land (reg m x) (reg m y)) m m')
  ∧ (∃ m', run_instr w (word 8 x y 3) m = Ok (Some "XOR Vx, Vy"%string, m')
         ∧ only_register x (Z.lxor (reg m x) (reg m y)) m m').
Proof.
  intros Hwf Hx Hy.
  pose proof (reg_u8 m x Hwf Hx) as Hvx. pose proof (reg_u8 m y Hwf Hy) as Hvy.
  split; [|split].
  - destruct (binop_reg Z.lor m x y) as (m' & Hrun & Hreg); [done..|].
    rewrite uint8_lor in Hreg by done.
    exists m'. split; [|done]. unfold run_instr.
    destruct (word_fields 8 x y 1) as (-> & -> & -> & -> & _); try lia. simpl.
    unfold OR. by erewrite bind_Ok by exact Hrun.
  - destruct (binop_reg Z.land m x y) as (m' & Hrun & Hreg); [done..|].
    rewrite uint8_land in Hreg by done.
    exists m'. split; [|done]. unfold run_instr.
    destruct (word_fields 8 x y 2) as (-> & -> & -> & -> & _); try lia. simpl.
    unfold AND. by erewrite bind_Ok by exact Hrun.
  - destruct (binop_reg Z.lxor m x y) as (m' & Hrun & Hreg); [done..|].
    rewrite uint8_lxor in Hreg by done.
    exists m'. split; [|done]. unfold run_instr.
    destruct (word_fields 8 x y 3) as (-> & -> & -> & -> & _); try lia. simpl.
    unfold XOR. by erewrite bind_Ok by exact Hrun.
Qed.

(** X13.  [ADD Vx, kk] (7xkk) stores [(V[x] + kk) mod 256] into [V[x]] and
    changes nothing else: no carry goes to [V[0xF]]. *)
Theorem ADD_Vx_kk_wraps_without_flag w m x kk :
  wf m → 0 ≤ x < 16 → 0 ≤ kk < 256 →
  ∃ m', run_instr w (word_kk 7 x kk) m = Ok (Some "ADD Vx, kk"%string, m')
      ∧ only_register x ((reg m x + kk) mod 256) m m'.
Proof.
  intros Hwf Hx Hkk. pose proof (wf_V m Hwf) as Hlen.
  destruct (setV_reg m x (reg m x + kk) Hwf Hx) as (m' & Hset & _ & Hregs).
  exists m'. split; [|done]. unfold run_instr.
  destruct (word_kk_fields 7 x kk) as (-> & -> & ->); try lia. simpl.
  unfold ADD. simpl.
  erewrite bind_Ok; [done|].
  by rewrite (bind_Ok _ _ _ _ _ (getV_Ok m x Hlen Hx)).
Qed.

(** X14.  [LD Vx, kk] (6xkk) and [LD Vx, Vy] (8xy0) set [V[x]] and nothing
    else; [LD I, nnn] (Annn) sets [I] and nothing else. *)
Theorem loads_set_their_target_only w m x y kk nnn :
  wf m → 0 ≤ x < 16 → 0 ≤ y < 16 → 0 ≤ kk < 256 → 0 ≤ nnn < 4096 →
  (∃ m', run_instr w (word_kk 6 x kk) m = Ok (Some "LD Vx, kk"%string, m')
       ∧ only_register x kk m m')
  ∧ (∃ m', run_instr w (word 8 x y 0) m = Ok (Some "LD Vx, Vy"%string, m')
         ∧ only_register x (reg m y) m m')
  ∧ run_instr w (word_nnn 0xA nnn) m = Ok (Some "LD I, nnn"%string, with_I nnn m).
Proof.
  intros Hwf Hx Hy Hkk Hnnn. pose proof (wf_V m Hwf) as Hlen.
  pose proof (reg_u8 m y Hwf Hy) as Hvy.
  split; [|split].
  - destruct (setV_reg m x kk Hwf Hx) as (m' & Hset & _ & Hregs).
    rewrite uint8_small in Hregs by done.
    exists m'. split; [|done]. unfold run_instr.
    destruct (word_kk_fields 6 x kk) as (-> & -> & ->); try lia. simpl.
    unfold LD. simpl. by erewrite bind_Ok by exact Hset.
  - destruct (setV_reg m x (reg m y) Hwf Hx) as (m' & Hset & _ & Hregs).
    rewrite uint8_small in Hregs by done.
    exists m'. split; [|done]. unfold run_instr.
    destruct (word_fields 8 x y 0) as (-> & -> & -> & -> & _); try lia. simpl.
    unfold LD. simpl.
    erewrite bind_Ok; [done|].
    by rewrite (bind_Ok _ _ _ _ _ (getV_Ok m y Hlen Hy)).
  - unfold run_instr.
    destruct (word_nnn_fields 0xA nnn) as (-> & ->); try lia. done.
Qed.

(** X17.  [ADD I, Vx] (Fx1E) leaves [(I + V[x]) mod 4096] in [I] and
    changes nothing else; no flag is set when the sum passes 0xFFF. *)
Theorem ADD_I_Vx_wraps_at_12_bits w m x :
  wf m → 0 ≤ x < 16 →
  run_instr w (word_kk 0xF x 0x1E) m
  = Ok (Some "ADD I, Vx"%string, with_I ((I m + reg m x) mod 4096) m).
Proof.
  intros Hwf Hx. pose proof (wf_V m Hwf) as Hlen. unfold run_instr.
  destruct (word_kk_fields 0xF x 0x1E) as (-> & -> & ->); try lia. simpl.
  unfold ADD. simpl.
  erewrite bind_Ok; [done|].
  unfold mbind at 1, M_bind at 1, gets at 1.
  rewrite (bind_Ok _ _ _ _ _ (getV_Ok m x Hlen Hx)).
  unfold mbind, M_bind, gets, modify. simpl.
  change 4095 with (Z.ones 12). rewrite Z.land_ones by lia.
  by destruct m.
Qed.

Lemma high_bit_of_byte v :
  0 ≤ v < 256 → Z.b2z (negb (Z.land v 0x80 =? 0)) = v / 128.
Proof.
  intros Hv. apply Z.eqb_eq.
  apply (all_from_spec 256 0
           (λ v, Z.b2z (negb (Z.land v 0x80 =? 0)) =? v / 128)); [|lia].
  vm_compute. reflexivity.
Qed.

(** X15.  [SHR Vx] (8xy6) halves [V[x]] and leaves the bit shifted out in
    [V[0xF]]; [SHL Vx] (8xyE) doubles [V[x]] modulo 256 and leaves the bit
    shifted out in [V[0xF]]; [V[y]] plays no part.  The flag is written
    first: with [x = 0xF], [SHR] leaves 0 and [SHL] twice the old high bit
    in [V[0xF]]. *)
Theorem shifts_move_a_bit_into_the_flag w m x y :
  wf m → 0 ≤ x < 16 → 0 ≤ y < 16 →
  (∃ m', run_instr w (word 8 x y 6) m = Ok (Some "SHR Vx {, Vy}"%string, m')
       ∧ (x ≠ 0xF → reg m' x = reg m x / 2 ∧ reg m' 0xF = reg m x mod 2)
       ∧ (x = 0xF → reg m' 0xF = 0)
       ∧ (∀ r, 0 ≤ r < 16 → r ≠ x → r ≠ 0xF → reg m' r = reg m r)
       ∧ with_V (V m) m' = m)
  ∧ (∃ m', run_instr w (word 8 x y 0xE) m = Ok (Some "SHL Vx {, Vy}"%string, m')
         ∧ (x ≠ 0xF → reg m' x = (2 * reg m x) mod 256 ∧ reg m' 0xF = reg m x / 128)
         ∧ (x = 0xF → reg m' 0xF = 2 * (reg m 0xF / 128))
         ∧ (∀ r, 0 ≤ r < 16 → r ≠ x → r ≠ 0xF → reg m' r = reg m r)
         ∧ with_V (V m) m' = m).
Proof.
  intros Hwf Hx Hy. pose proof (wf_V m Hwf) as Hlen.
  pose proof (reg_u8 m x Hwf Hx) as Hvx.
  split.
  - destruct (setV_reg m 0xF (Z.land (reg m x) 1) Hwf) as (m1 & Hset1 & Hwf1 & HF1 & Hregs1 & Hm1);
      [lia|].
    destruct (setV_reg m1 x (Z.shiftr (reg m1 x) 1) Hwf1 Hx) as (m' & Hset & _ & Hx' & Hregs & Hm').
    change (Z.land (reg m x) 1) with (Z.land (reg m x) (Z.ones 1)) in HF1.
    rewrite Z.land_ones in HF1 by lia.
    rewrite Z.shiftr_div_pow2 in Hx' by lia. change (2 ^ 1) with 2 in *.
    rewrite uint8_small in HF1 by (Z.div_mod_to_equations; lia).
    exists m'. split; [|split; [|split; [|split]]].
    + unfold run_instr.
      destruct (word_fields 8 x y 6) as (-> & -> & -> & -> & _); try lia. simpl.
      unfold SHR. erewrite bind_Ok; [done|].
      rewrite (bind_Ok _ _ _ _ _ (getV_Ok m x Hlen Hx)).
      erewrite bind_Ok by exact Hset1.
      by rewrite (bind_Ok _ _ _ _ _ (getV_Ok m1 x (wf_V m1 Hwf1) Hx)).
    + intros HxF. rewrite Hx', (Hregs1 x) by done.
      rewrite uint8_small by (Z.div_mod_to_equations; lia).
      split; [done|]. by rewrite (Hregs 0xF) by lia.
    + intros ->. rewrite Hx', HF1.
      assert (0 ≤ reg m 15 mod 2 < 2) by (apply Z.mod_pos_bound; lia).
      rewrite Z.div_small by done. done.
    + intros r Hr Hrx HrF. by rewrite (Hregs r), (Hregs1 r).
    + rewrite <- Hm1 at 2. rewrite <- Hm'. by destruct m'.
  - destruct (setV_reg m 0xF (Z.b2z (negb (Z.land (reg m x) 0x80 =? 0))) Hwf)
      as (m1 & Hset1 & Hwf1 & HF1 & Hregs1 & Hm1); [lia|].
    destruct (setV_reg m1 x (Z.shiftl (reg m1 x) 1) Hwf1 Hx) as (m' & Hset & _ & Hx' & Hregs & Hm').
    rewrite high_bit_of_byte in HF1 by done.
    rewrite uint8_small in HF1 by (Z.div_mod_to_equations; lia).
    rewrite Z.shiftl_mul_pow2 in Hx' by lia. change (2 ^ 1) with 2 in *.
    exists m'. split; [|split; [|split; [|split]]].
    + unfold run_instr.
      destruct (word_fields 8 x y 0xE) as (-> & -> & -> & -> & _); try lia. simpl.
      unfold SHL. erewrite bind_Ok; [done|].
      rewrite (bind_Ok _ _ _ _ _ (getV_Ok m x Hlen Hx)).
      erewrite bind_Ok by exact Hset1.
      by rewrite (bind_Ok _ _ _ _ _ (getV_Ok m1 x (wf_V m1 Hwf1) Hx)).
    + intros HxF. rewrite Hx', (Hregs1 x) by done.
      split; [unfold uint8; f_equal; lia|]. by rewrite (Hregs 0xF) by lia.
    + intros ->. rewrite Hx', HF1.
      rewrite uint8_small by (Z.div_mod_to_equations; lia). lia.
    + intros r Hr Hrx HrF. by rewrite (Hregs r), (Hregs1 r).
    + rewrite <- Hm1 at 2. rewrite <- Hm'. by destruct m'.
Qed.

(** X16.  [RND Vx, kk] (Cxkk) stores the byte of [random & kk] into [V[x]]
    and changes nothing else; the result has no bit outside [kk], and it is
    [random & kk] itself for a random value in [0, 255]. *)
Theorem RND_masks_the_random_byte w m x kk :
  wf m → 0 ≤ x < 16 → 0 ≤ kk < 256 →
  ∃ m', run_instr w (word_kk 0xC x kk) m = Ok (Some "RND Vx, kk"%string, m')
      ∧ only_register x (uint8 (Z.land (randint w) kk)) m m'
      ∧ Z.land (reg m' x) (Z.lnot kk) = 0
      ∧ (0 ≤ randint w < 256 → reg m' x = Z.land (randint w) kk).
Proof.
  intros Hwf Hx Hkk.
  destruct (setV_reg m x (Z.land (randint w) kk) Hwf Hx) as (m' & Hset & _ & Hregs).
  exists m'. split; [|split; [done|split]].
  - unfold run_instr.
    destruct (word_kk_fields 0xC x kk) as (-> & -> & ->); try lia. simpl.
    unfold RND. by erewrite bind_Ok by exact Hset.
  - destruct Hregs as (-> & _). rewrite uint8_land_ones.
    apply Z.bits_inj'. intros i Hi.
    rewrite !Z.land_spec, Z.lnot_spec, Z.bits_0 by done.
    by destruct (Z.testbit (randint w) i), (Z.testbit kk i), (Z.testbit (Z.ones 8) i).
  - intros Hrnd. destruct Hregs as (-> & _). by apply uint8_land.
Qed.

Lemma logic_ops_are_bitwise_witness :
  wf alu_example ∧ 0 ≤ 0 < 16 ∧ 0 ≤ 1 < 16
  ∧ ((∃ m', run_instr quiet (word 8 0 1 1) alu_example = Ok (Some "OR Vx, Vy"%string, m')
         ∧ only_register 0 (Z.lor (reg alu_example 0) (reg alu_example 1)) alu_example m')
     ∧ (∃ m', run_instr quiet (word 8 0 1 2) alu_example = Ok (Some "AND Vx, Vy"%string, m')
            ∧ only_register 0 (Z.land (reg alu_example 0) (reg alu_example 1)) alu_example m')
     ∧ (∃ m', run_instr quiet (word 8 0 1 3) alu_example = Ok (Some "XOR Vx, Vy"%string, m')
            ∧ only_register 0 (Z.lxor (reg alu_example 0) (reg alu_example 1)) alu_example m')).
Proof.
  split; [apply wf_check_sound; vm_compute; reflexivity|].
  split; [lia|].
  split; [lia|].
  apply (logic_ops_are_bitwise quiet alu_example 0 1);
    [apply wf_check_sound; vm_compute; reflexivity | lia | lia].
Defined.

Lemma ADD_Vx_kk_wraps_without_flag_witness :
  wf alu_example ∧ 0 ≤ 0 < 16 ∧ 0 ≤ 0xFE < 256
  ∧ ∃ m', run_instr quiet (word_kk 7 0 0xFE) alu_example = Ok (Some "ADD Vx, kk"%string, m')
        ∧ only_register 0 ((reg alu_example 0 + 0xFE) mod 256) alu_example m'.
Proof.
  split; [apply wf_check_sound; vm_compute; reflexivity|].
  split; [lia|].
  split; [lia|].
  apply (ADD_Vx_kk_wraps_without_flag quiet alu_example 0 0xFE);
    [apply wf_check_sound; vm_compute; reflexivity | lia | lia].
Defined.

Lemma loads_set_their_target_only_witness :
  wf alu_example ∧ 0 ≤ 0 < 16 ∧ 0 ≤ 1 < 16 ∧ 0 ≤ 7 < 256 ∧ 0 ≤ 0x202 < 4096
  ∧ ((∃ m', run_instr quiet (word_kk 6 0 7) alu_example = Ok (Some "LD Vx, kk"%string, m')
         ∧ only_register 0 7 alu_example m')
     ∧ (∃ m', run_instr quiet (word 8 0 1 0) alu_example = Ok (Some "LD Vx, Vy"%string, m')
            ∧ only_register 0 (reg alu_example 1) alu_example m')
     ∧ run_instr quiet (word_nnn 0xA 0x202) alu_example
       = Ok (Some "LD I, nnn"%string, with_I 0x202 alu_example)).
Proof.
  split; [apply wf_check_sound; vm_compute; reflexivity|].
  split; [lia|].
  split; [lia|].
  split; [lia|].
  split; [lia|].
  apply (loads_set_their_target_only quiet alu_example 0 1 7 0x202);
    [apply wf_check_sound; vm_compute; reflexivity | lia | lia | lia | lia].
Defined.

Lemma ADD_I_Vx_wraps_at_12_bits_witness :
  wf alu_example ∧ 0 ≤ 0 < 16
  ∧ run_instr quiet (word_kk 0xF 0 0x1E) alu_example
    = Ok (Some "ADD I, Vx"%string,
          with_I ((I alu_example + reg alu_example 0) mod 4096) alu_example).
Proof.
  split; [apply wf_check_sound; vm_compute; reflexivity|].
  split; [lia|].
  apply (ADD_I_Vx_wraps_at_12_bits quiet alu_example 0);
    [apply wf_check_sound; vm_compute; reflexivity | lia].
Defined.

Lemma shifts_move_a_bit_into_the_flag_witness :
  wf alu_example ∧ 0 ≤ 0 < 16 ∧ 0 ≤ 1 < 16
  ∧ ((∃ m', run_instr quiet (word 8 0 1 6) alu_example = Ok (Some "SHR Vx {, Vy}"%string, m')
         ∧ (0 ≠ 0xF → reg m' 0 = reg alu_example 0 / 2 ∧ reg m' 0xF = reg alu_example 0 mod 2)
         ∧ (0 = 0xF → reg m' 0xF = 0)
         ∧ (∀ r, 0 ≤ r < 16 → r ≠ 0 → r ≠ 0xF → reg m' r = reg alu_example r)
         ∧ with_V (V alu_example) m' = alu_example)
     ∧ (∃ m', run_instr quiet (word 8 0 1 0xE) alu_example = Ok (Some "SHL Vx {, Vy}"%string, m')
            ∧ (0 ≠ 0xF → reg m' 0 = (2 * reg alu_example 0) mod 256
                         ∧ reg m' 0xF = reg alu_example 0 / 128)
            ∧ (0 = 0xF → reg m' 0xF = 2 * (reg alu_example 0xF / 128))
            ∧ (∀ r, 0 ≤ r < 16 → r ≠ 0 → r ≠ 0xF → reg m' r = reg alu_example r)
            ∧ with_V (V alu_example) m' = alu_example)).
Proof.
  split; [apply wf_check_sound; vm_compute; reflexivity|].
  split; [lia|].
  split; [lia|].
  apply (shifts_move_a_bit_into_the_flag quiet alu_example 0 1);
    [apply wf_check_sound; vm_compute; reflexivity | lia | lia].
Defined.

Lemma RND_masks_the_random_byte_witness :
  wf alu_example ∧ 0 ≤ 0 < 16 ∧ 0 ≤ 0x0F < 256
  ∧ ∃ m', run_instr (World 0xAB [] [] false) (word_kk 0xC 0 0x0F) alu_example
          = Ok (Some "RND Vx, kk"%string, m')
        ∧ only_register 0 (uint8 (Z.land (randint (World 0xAB [] [] false)) 0x0F)) alu_example m'
        ∧ Z.land (reg m' 0) (Z.lnot 0x0F) = 0
        ∧ (0 ≤ randint (World 0xAB [] [] false) < 256 →
           reg m' 0 = Z.land (randint (World 0xAB [] [] false)) 0x0F).
Proof.
  split; [apply wf_check_sound; vm_compute; reflexivity|].
  split; [lia|].
  split; [lia|].
  apply (RND_masks_the_random_byte (World 0xAB [] [] false) alu_example 0 0x0F);
    [apply wf_check_sound; vm_compute; reflexivity | lia | lia].
Defined.
